(** * Authentication and access control of the zupp.store API

    A shallow embedding of the request gates and of the handlers behind
    them, and the properties the specification asks of them.

    - [src/middleware/auth.ts]    : [authMiddleware], [requireRole],
                                    [requireAdmin], [requireStaff]
    - [src/middleware/apiKey.ts]  : [apiKeyMiddleware]
    - [src/routes/apiKeys.ts]     : [generateApiKey], the regenerate route
    - [src/routes/auth.ts]        : the register, login and me routes
    - [src/db/schema/users.ts], [src/db/schema/apiKeys.ts] : the two tables

    Handlers are asynchronous functions over a request context and a
    relational store. They are embedded in a state-and-exception monad over
    a [World] that holds the two tables, the request, the context bag filled
    by [c.set], a log of what the handler did, and the sources of what a
    handler cannot decide: the clock, the random bytes, and the faults and
    column defaults of the store. [lib/auth.ts] is an interface,
    [AuthService]. *)

From Stdlib Require Import ZArith NArith Lia Ascii String.
From Stdlib.Strings Require Import Byte.
From stdpp Require Import base option list strings gmap.

Local Open Scope string_scope.
Local Open Scope Z_scope.
Set Warnings "-register-all".

(** ** JavaScript values *)

(** The JSON-like values that flow through request bodies and responses.
    A [Date] is kept as its millisecond timestamp. *)
Inductive jsval : Type :=
  | JNull
  | JBool (b : bool)
  | JNum (n : Z)
  | JDate (ms : Z)
  | JStr (s : string)
  | JObj (o : gmap string jsval).

Abbreviation jsobj := (gmap string jsval).

(** [!x] for a value that is a string or [undefined]/[null]: the empty
    string is falsy as well. *)
Definition truthy (x : option string) : bool :=
  match x with
  | Some s => negb (String.eqb s "")
  | None => false
  end.

(** [a || b] on such values. *)
Definition js_or (a b : option string) : option string :=
  if truthy a then a else b.

Definition opt_str (x : option string) : jsval :=
  match x with Some s => JStr s | None => JNull end.

Definition opt_date (x : option Z) : jsval :=
  match x with Some t => JDate t | None => JNull end.

(** ** Tables *)

(** [pgEnum('user_role', ['admin', 'customer', 'staff'])] *)
Inductive userRoleEnum : Type := admin | customer | staff.

Definition role_name (r : userRoleEnum) : string :=
  match r with
  | admin => "admin"
  | customer => "customer"
  | staff => "staff"
  end.

Module users.
(** A row of [pgTable('users', ...)]. *)
Record row : Type := mk {
  id : string;
  email : string;
  password : string;
  firstName : option string;
  lastName : option string;
  phone : option string;
  role : userRoleEnum;
  isActive : bool;
  emailVerified : bool;
  lastLoginAt : option Z;
  createdAt : Z;
  updatedAt : Z;
}.

(** The row as the JavaScript object the driver hands back. *)
Definition to_obj (u : row) : jsobj :=
  <["id" := JStr (id u)]>
  (<["email" := JStr (email u)]>
  (<["password" := JStr (password u)]>
  (<["firstName" := opt_str (firstName u)]>
  (<["lastName" := opt_str (lastName u)]>
  (<["phone" := opt_str (phone u)]>
  (<["role" := JStr (role_name (role u))]>
  (<["isActive" := JBool (isActive u)]>
  (<["emailVerified" := JBool (emailVerified u)]>
  (<["lastLoginAt" := opt_date (lastLoginAt u)]>
  (<["createdAt" := JDate (createdAt u)]>
  (<["updatedAt" := JDate (updatedAt u)]> ∅))))))))))).

Definition set_lastLoginAt (t : option Z) (u : row) : row :=
  mk (id u) (email u) (password u) (firstName u) (lastName u) (phone u)
     (role u) (isActive u) (emailVerified u) t (createdAt u) (updatedAt u).
End users.

Module apiKeys.
(** A row of [pgTable('api_keys', ...)]. *)
Record row : Type := mk {
  id : string;
  name : string;
  key : string;
  description : option string;
  createdBy : string;
  isActive : bool;
  lastUsedAt : option Z;
  expiresAt : option Z;
  createdAt : Z;
  updatedAt : Z;
}.

Definition to_obj (k : row) : jsobj :=
  <["id" := JStr (id k)]>
  (<["name" := JStr (name k)]>
  (<["key" := JStr (key k)]>
  (<["description" := opt_str (description k)]>
  (<["createdBy" := JStr (createdBy k)]>
  (<["isActive" := JBool (isActive k)]>
  (<["lastUsedAt" := opt_date (lastUsedAt k)]>
  (<["expiresAt" := opt_date (expiresAt k)]>
  (<["createdAt" := JDate (createdAt k)]>
  (<["updatedAt" := JDate (updatedAt k)]> ∅))))))))).

(** [.set({ lastUsedAt: t })] *)
Definition set_lastUsedAt (t : Z) (k : row) : row :=
  mk (id k) (name k) (key k) (description k) (createdBy k) (isActive k)
     (Some t) (expiresAt k) (createdAt k) (updatedAt k).

(** [.set({ key: v, updatedAt: t })] *)
Definition set_key_updatedAt (v : string) (t : Z) (k : row) : row :=
  mk (id k) (name k) v (description k) (createdBy k) (isActive k)
     (lastUsedAt k) (expiresAt k) (createdAt k) t.
End apiKeys.

(** ** The world a handler runs in *)

(** A thrown JavaScript [Error]; [exn_msg] is its internal message. *)
Record exn : Type := Exn { exn_msg : string }.

(** [c.req]: headers, query string, route parameters and the JSON body. *)
Record Request : Type := mkRequest {
  req_headers : gmap string string;
  req_queries : gmap string string;
  req_params : gmap string string;
  req_json : jsobj;
}.

(** [AuthContext['user']] *)
Record AuthUser : Type := mkAuthUser {
  au_id : string;
  au_email : string;
  au_role : string;
}.

(** The request-scoped bag behind [c.set] / [c.get]; the two keys the
    gates use are ['user'] and ['apiKey']. *)
Record Ctx : Type := mkCtx {
  ctx_user : option AuthUser;
  ctx_apiKey : option apiKeys.row;
}.

(** What a handler does that the outside can see, in order. *)
Inductive event : Type :=
  | EvVerifyToken (token : string)
  | EvSelectUsers
  | EvInsertUsers
  | EvUpdateUsers
  | EvSelectApiKeys
  | EvUpdateApiKeys
  | EvConsoleError (label : string) (e : exn).

Definition is_store_access (e : event) : bool :=
  match e with
  | EvSelectUsers | EvInsertUsers | EvUpdateUsers
  | EvSelectApiKeys | EvUpdateApiKeys => true
  | _ => false
  end.

Record World : Type := mkWorld {
  tbl_users : list users.row;
  tbl_apiKeys : list apiKeys.row;
  req : Request;
  ctx : Ctx;
  (** [new Date()]: the n-th reading of the clock. *)
  clock : nat → Z;
  dates : nat;
  (** [crypto.randomBytes]: the operating system's byte stream. *)
  entropy : nat → byte;
  drawn : nat;
  (** The store, per round trip: whether the driver throws, and the values
      of the column defaults [defaultRandom()] and [defaultNow()]. *)
  fault : nat → option exn;
  db_uuid : nat → string;
  db_now : nat → Z;
  trips : nat;
  trace : list event;
}.

Definition with_users (t : list users.row) (w : World) : World :=
  mkWorld t (tbl_apiKeys w) (req w) (ctx w) (clock w) (dates w) (entropy w)
    (drawn w) (fault w) (db_uuid w) (db_now w) (trips w) (trace w).
Definition with_apiKeys (t : list apiKeys.row) (w : World) : World :=
  mkWorld (tbl_users w) t (req w) (ctx w) (clock w) (dates w) (entropy w)
    (drawn w) (fault w) (db_uuid w) (db_now w) (trips w) (trace w).
Definition with_req (r : Request) (w : World) : World :=
  mkWorld (tbl_users w) (tbl_apiKeys w) r (ctx w) (clock w) (dates w)
    (entropy w) (drawn w) (fault w) (db_uuid w) (db_now w) (trips w) (trace w).
Definition with_ctx (c : Ctx) (w : World) : World :=
  mkWorld (tbl_users w) (tbl_apiKeys w) (req w) c (clock w) (dates w)
    (entropy w) (drawn w) (fault w) (db_uuid w) (db_now w) (trips w) (trace w).
Definition with_dates (n : nat) (w : World) : World :=
  mkWorld (tbl_users w) (tbl_apiKeys w) (req w) (ctx w) (clock w) n
    (entropy w) (drawn w) (fault w) (db_uuid w) (db_now w) (trips w) (trace w).
Definition with_drawn (n : nat) (w : World) : World :=
  mkWorld (tbl_users w) (tbl_apiKeys w) (req w) (ctx w) (clock w) (dates w)
    (entropy w) n (fault w) (db_uuid w) (db_now w) (trips w) (trace w).
Definition with_trips (n : nat) (w : World) : World :=
  mkWorld (tbl_users w) (tbl_apiKeys w) (req w) (ctx w) (clock w) (dates w)
    (entropy w) (drawn w) (fault w) (db_uuid w) (db_now w) n (trace w).
Definition with_trace (t : list event) (w : World) : World :=
  mkWorld (tbl_users w) (tbl_apiKeys w) (req w) (ctx w) (clock w) (dates w)
    (entropy w) (drawn w) (fault w) (db_uuid w) (db_now w) (trips w) t.

(** ** The handler monad: state and exceptions *)

Inductive Res (A : Type) : Type :=
  | Ok (a : A)
  | Throw (e : exn).
Arguments Ok {A} a.
Arguments Throw {A} e.

Definition M (A : Type) : Type := World → Res A * World.

#[global] Instance M_ret : MRet M := λ A a w, (Ok a, w).
#[global] Instance M_bind : MBind M := λ A B f m w,
  match m w with
  | (Ok a, w') => f a w'
  | (Throw e, w') => (Throw e, w')
  end.

Definition throw {A} (e : exn) : M A := λ w, (Throw e, w).

(** A primitive step given directly on the world. *)
Definition step {A} (f : World → Res A * World) : M A := f.

(** [try { body } catch (error) { handler }] *)
Definition try_catch {A} (body : M A) (handler : exn → M A) : M A := λ w,
  match body w with
  | (Ok a, w') => (Ok a, w')
  | (Throw e, w') => handler e w'
  end.

(** A synchronous call that may throw. *)
Definition lift_res {A} (r : Res A) : M A := λ w, (r, w).

Definition emit (e : event) : M unit := λ w,
  (Ok (), with_trace (trace w ++ [e]) w).

(** [console.error(label, error)] *)
Definition console_error (label : string) (e : exn) : M unit :=
  emit (EvConsoleError label e).

(** [new Date()] *)
Definition new_Date : M Z := λ w,
  (Ok (clock w (dates w)), with_dates (S (dates w)) w).

(** The next [n] bytes of the random source. *)
Definition next_bytes (n : nat) (w : World) : list byte :=
  map (λ i, entropy w (drawn w + i)%nat) (seq 0 n).

(** [randomBytes(n)] *)
Definition randomBytes (n : nat) : M (list byte) := λ w,
  (Ok (next_bytes n w), with_drawn (drawn w + n)%nat w).

(** [c.req.header(name)], [c.req.query(name)] *)
Definition req_header (name : string) : M (option string) := λ w,
  (Ok (req_headers (req w) !! name), w).
Definition req_query (name : string) : M (option string) := λ w,
  (Ok (req_queries (req w) !! name), w).

(** [c.req.param(name)] inside a route that declares [:name]. *)
Definition c_req_param (name : string) : M string := λ w,
  (Ok (default "" (req_params (req w) !! name)), w).

(** [c.req.json()] as the validator middleware reads it. *)
Definition req_body : M jsobj := λ w, (Ok (req_json (req w)), w).

(** [c.get('user')], [c.set('user', u)], [c.set('apiKey', k)] *)
Definition c_get_user : M (option AuthUser) := λ w, (Ok (ctx_user (ctx w)), w).
Definition c_set_user (u : AuthUser) : M unit := λ w,
  (Ok (), with_ctx (mkCtx (Some u) (ctx_apiKey (ctx w))) w).
Definition c_set_apiKey (k : apiKeys.row) : M unit := λ w,
  (Ok (), with_ctx (mkCtx (ctx_user (ctx w)) (Some k)) w).

(** A response: status code and JSON body. *)
Record Response : Type := mkResponse {
  status : Z;
  body : jsobj;
}.

(** What a middleware leaves behind: a response of its own, or control
    handed to the next stage with [await next()]. *)
Inductive outcome : Type :=
  | Respond (r : Response)
  | Passed.

(** [return c.json(obj, status)] *)
Definition c_json (obj : jsobj) (st : Z) : M outcome :=
  mret (Respond (mkResponse st obj)).

(** [{ error: msg }] *)
Definition error_body (msg : string) : jsobj := {[ "error" := JStr msg ]}.

(** [await next()]: the stages behind a middleware run after it; an
    exception raised there is turned into a response by the framework's
    error handler and does not come back through [next]. *)
Definition next : M outcome := mret Passed.

(** ** The store *)

(** One round trip to the database: it is logged, counted, and throws when
    the driver does (connection lost, statement refused). *)
Definition round_trip (e : event) : M nat := λ w,
  let n := trips w in
  let w' := with_trips (S n) (with_trace (trace w ++ [e]) w) in
  match fault w n with
  | Some err => (Throw err, w')
  | None => (Ok n, w')
  end.

(** [.limit(n)] *)
Definition limit {A} (n : option nat) (l : list A) : list A :=
  match n with Some k => take k l | None => l end.

(** [db.select().from(users).where(P).limit(n)] *)
Definition select_users (P : users.row → Prop) `{!∀ u, Decision (P u)}
    (n : option nat) : M (list users.row) :=
  _ ← round_trip EvSelectUsers;
  step (λ w, (Ok (limit n (filter P (tbl_users w))), w)).

(** [db.select().from(apiKeys).where(P)] *)
Definition select_apiKeys (P : apiKeys.row → Prop) `{!∀ k, Decision (P k)}
    : M (list apiKeys.row) :=
  _ ← round_trip EvSelectApiKeys;
  step (λ w, (Ok (filter P (tbl_apiKeys w)), w)).

(** The [unique()] constraint on [api_keys.key]. *)
Definition keys_unique (t : list apiKeys.row) : Prop :=
  NoDup (apiKeys.key <$> t).

(** [db.update(apiKeys).set(f).where(P).returning()]: every row that
    satisfies [P] is rewritten by [f]; the statement is refused, and nothing
    is written, when the result would hold one key value twice. *)
Definition update_apiKeys (f : apiKeys.row → apiKeys.row)
    (P : apiKeys.row → Prop) `{!∀ k, Decision (P k)} : M (list apiKeys.row) :=
  _ ← round_trip EvUpdateApiKeys;
  step (λ w,
    let t' := (λ k, if decide (P k) then f k else k) <$> tbl_apiKeys w in
    if decide (keys_unique t') then
      (Ok (f <$> filter P (tbl_apiKeys w)), with_apiKeys t' w)
    else
      (Throw (Exn "duplicate key value violates unique constraint"), w)).

(** [db.update(users).set(f).where(P)] for a change that touches neither
    [id] nor [email]. *)
Definition update_users (f : users.row → users.row)
    (P : users.row → Prop) `{!∀ u, Decision (P u)} : M unit :=
  _ ← round_trip EvUpdateUsers;
  step (λ w,
    let t' := (λ u, if decide (P u) then f u else u) <$> tbl_users w in
    (Ok (), with_users t' w)).

(** [typeof users.$inferInsert]: the columns with a default may be left out. *)
Record NewUser : Type := mkNewUser {
  nu_email : string;
  nu_password : string;
  nu_firstName : option string;
  nu_lastName : option string;
  nu_phone : option string;
  nu_role : option userRoleEnum;
  nu_isActive : option bool;
  nu_emailVerified : option bool;
}.

(** [db.insert(users).values(v).returning()]: the missing columns take their
    defaults; the primary key and the [unique()] email are enforced. *)
Definition insert_users (v : NewUser) : M (list users.row) :=
  n ← round_trip EvInsertUsers;
  step (λ w,
    let u := users.mk (db_uuid w n) (nu_email v) (nu_password v)
               (nu_firstName v) (nu_lastName v) (nu_phone v)
               (default customer (nu_role v))
               (default true (nu_isActive v))
               (default false (nu_emailVerified v))
               None (db_now w n) (db_now w n) in
    if decide (users.id u ∈ users.id <$> tbl_users w
               ∨ users.email u ∈ users.email <$> tbl_users w) then
      (Throw (Exn "duplicate key value violates unique constraint"), w)
    else
      (Ok [u], with_users (tbl_users w ++ [u]) w)).

(** ** AuthService *)

(** The claims carried by a session token. *)
Record JWTPayload : Type := mkJWTPayload {
  userId : string;
  email : string;
  role : string;
}.

(** [lib/auth.ts] is not part of the sources at hand; the handlers are
    verified against its interface. [verifyToken] throws on a token that is
    malformed, forged or expired, and it and [generateToken] read the clock;
    [hashPassword] draws a salt. *)
Class AuthService : Type := {
  extractTokenFromHeader : option string → option string;
  verifyToken : Z → string → Res JWTPayload;
  generateToken : Z → users.row → string;
  hashPassword : list byte → string → Res string;
  comparePassword : string → string → Res bool;
}.

Section Gates.
Context `{svc : AuthService}.

(** [AuthService.verifyToken(token)] *)
Definition verify_token (token : string) : M JWTPayload :=
  _ ← emit (EvVerifyToken token);
  now ← new_Date;
  lift_res (verifyToken now token).

(** [AuthService.generateToken(user)] *)
Definition generate_token (user : users.row) : M string :=
  now ← new_Date;
  mret (generateToken now user).

(** [await AuthService.hashPassword(password)] *)
Definition hash_password (plain : string) : M string :=
  salt ← randomBytes 16;
  lift_res (hashPassword salt plain).

(** *** [src/middleware/auth.ts] *)

Definition authMiddleware : M outcome :=
  try_catch
    (authHeader ← req_header "Authorization";
     let token := extractTokenFromHeader authHeader in
     if negb (truthy token) then
       c_json (error_body "Authorization token required") 401
     else
       payload ← verify_token (default "" token);
       (* Verify user still exists and is active *)
       user ← select_users (λ u, users.id u = userId payload) (Some 1%nat);
       if (length user =? 0)%nat
          || negb (from_option users.isActive false (user !! 0%nat)) then
         c_json (error_body "User not found or inactive") 401
       else
         (* Add user info to context *)
         _ ← c_set_user (mkAuthUser (userId payload) (email payload)
                           (role payload));
         next)
    (λ error, c_json (error_body "Invalid or expired token") 401).

Definition requireRole (roles : list string) : M outcome :=
  user ← c_get_user;
  match user with
  | None => c_json (error_body "Authentication required") 401
  | Some u =>
      if negb (bool_decide (au_role u ∈ roles)) then
        c_json (error_body "Insufficient permissions") 403
      else next
  end.

Definition requireAdmin : M outcome := requireRole ["admin"].
Definition requireStaff : M outcome := requireRole ["admin"; "staff"].

(** *** [src/middleware/apiKey.ts] *)

(** [c.req.header('X-API-Key') || c.req.query('api_key')] *)
Definition presented_apiKey : M (option string) :=
  header ← req_header "X-API-Key";
  query ← req_query "api_key";
  mret (js_or header query).

Definition apiKeyMiddleware : M outcome :=
  try_catch
    (apiKey ← presented_apiKey;
     if negb (truthy apiKey) then
       c_json (error_body "API key is required") 401
     else
       (* Find the API key in the database *)
       found ← select_apiKeys
                 (λ k, apiKeys.key k = default "" apiKey
                       ∧ apiKeys.isActive k = true);
       match found with
       | [] => c_json (error_body "Invalid API key") 401
       | keyRecord :: _ =>
           (* Check if the API key has expired *)
           expired ← match apiKeys.expiresAt keyRecord with
                     | None => mret false
                     | Some e => now ← new_Date; mret (e <? now)
                     end;
           if (expired : bool) then
             c_json (error_body "API key has expired") 401
           else
             (* Update last used timestamp *)
             now ← new_Date;
             _ ← update_apiKeys (apiKeys.set_lastUsedAt now)
                   (λ k, apiKeys.id k = apiKeys.id keyRecord);
             (* Store the API key info in context for later use *)
             _ ← c_set_apiKey keyRecord;
             next
       end)
    (λ error,
       _ ← console_error "API key middleware error:" error;
       c_json (error_body "Authentication failed") 500).

(** *** [src/routes/apiKeys.ts] *)

(** [buf.toString('hex')]: two lower-case digits per byte, high nibble
    first. *)
Definition hex_digit (n : N) : ascii :=
  match n with
  | 0 => "0" | 1 => "1" | 2 => "2" | 3 => "3" | 4 => "4" | 5 => "5"
  | 6 => "6" | 7 => "7" | 8 => "8" | 9 => "9" | 10 => "a" | 11 => "b"
  | 12 => "c" | 13 => "d" | 14 => "e" | _ => "f"
  end%N%char.

Definition hex_byte (b : byte) : string :=
  String (hex_digit (Byte.to_N b / 16))
    (String (hex_digit (Byte.to_N b mod 16)) "").

Fixpoint toString_hex (buf : list byte) : string :=
  match buf with
  | [] => ""
  | b :: rest => hex_byte b ++ toString_hex rest
  end.

(** Generate a secure API key *)
Definition generateApiKey : M string :=
  let prefix := "zk_" in
  buf ← randomBytes 32;
  let randomPart := toString_hex buf in
  mret (prefix ++ randomPart).

(** [apiKeysRouter.post('/:id/regenerate', ...)]: the handler, which the
    router puts behind [authMiddleware] and [requireStaff]. *)
Definition regenerate : M outcome :=
  try_catch
    (id ← c_req_param "id";
     key ← generateApiKey;
     updatedAt ← new_Date;
     rows ← update_apiKeys (apiKeys.set_key_updatedAt key updatedAt)
              (λ k, apiKeys.id k = id);
     match rows with
     | [] => c_json (error_body "API key not found") 404
     | updated :: _ =>
         c_json {[ "data" := JObj (apiKeys.to_obj updated) ]} 200
     end)
    (λ error,
       _ ← console_error "Regenerate API key error:" error;
       c_json (error_body "Failed to regenerate API key") 500).

(** *** [src/routes/auth.ts] *)

(** The format test behind [z.string().email()], which belongs to the
    validation library. *)
Variable z_email : string → bool.

(** [z.infer<typeof registerSchema>] *)
Record RegisterInput : Type := mkRegisterInput {
  ri_email : string;
  ri_password : string;
  ri_firstName : option string;
  ri_lastName : option string;
  ri_phone : option string;
}.

(** [z.infer<typeof loginSchema>] *)
Record LoginInput : Type := mkLoginInput {
  li_email : string;
  li_password : string;
}.

(** [z.string().min(n)] on a required key. *)
Definition z_string_min (n : nat) (v : option jsval) : option string :=
  match v with
  | Some (JStr s) => if (n <=? String.length s)%nat then Some s else None
  | _ => None
  end.

(** [z.string().min(n).optional()]: the outer [option] is the verdict. *)
Definition z_string_min_optional (n : nat) (v : option jsval)
    : option (option string) :=
  match v with
  | None => Some None
  | Some (JStr s) =>
      if (n <=? String.length s)%nat then Some (Some s) else None
  | Some _ => None
  end.

(** [z.string().email()] *)
Definition z_string_email (v : option jsval) : option string :=
  match v with
  | Some (JStr s) => if z_email s then Some s else None
  | _ => None
  end.

(** [insertUserSchema.pick({ email, password, firstName, lastName, phone })]:
    the five picked keys are checked, every other key of the body is
    dropped. *)
Definition registerSchema (b : jsobj) : option RegisterInput :=
  e ← z_string_email (b !! "email");
  p ← z_string_min 8 (b !! "password");
  f ← z_string_min_optional 1 (b !! "firstName");
  l ← z_string_min_optional 1 (b !! "lastName");
  ph ← z_string_min_optional 0 (b !! "phone");
  Some (mkRegisterInput e p f l ph).

Definition loginSchema (b : jsobj) : option LoginInput :=
  e ← z_string_email (b !! "email");
  p ← z_string_min 1 (b !! "password");
  Some (mkLoginInput e p).

(** The report of the validation library on a body that the schema named
    refuses; it belongs to that library too. *)
Variable z_issues : string → jsobj → jsval.

(** The answer of [zValidator('json', schema)] to a body the schema
    refuses: the failed parse result, with status 400. *)
Definition validation_failed (schema : string) (b : jsobj) : M outcome :=
  c_json (<["success" := JBool false]>
          (<["error" := z_issues schema b]> ∅)) 400.

(** [const { password: _, ...userWithoutPassword } = user] *)
Definition userWithoutPassword (user : users.row) : jsobj :=
  delete "password" (users.to_obj user).

(** Register *)
Definition register : M outcome :=
  b ← req_body;
  match registerSchema b with
  | None => validation_failed "registerSchema" b
  | Some data =>
    try_catch
      ((* Check if user already exists *)
       existingUser ← select_users (λ u, users.email u = ri_email data)
                        (Some 1%nat);
       if (0 <? length existingUser)%nat then
         c_json (error_body "User already exists with this email") 400
       else
         (* Hash password *)
         hashedPassword ← hash_password (ri_password data);
         (* Create user *)
         newUser ← insert_users
                     (mkNewUser (ri_email data) hashedPassword
                        (ri_firstName data) (ri_lastName data)
                        (ri_phone data) (Some customer) None None);
         match newUser with
         | [] => throw (Exn "TypeError: undefined is not an object")
         | user :: _ =>
             token ← generate_token user;
             (* Remove password from response *)
             c_json (<["message" := JStr "User registered successfully"]>
                     (<["user" := JObj (userWithoutPassword user)]>
                     (<["token" := JStr token]> ∅))) 201
         end)
      (λ error,
         _ ← console_error "Registration error:" error;
         c_json (error_body "Internal server error") 500)
  end.

(** Login *)
Definition login : M outcome :=
  b ← req_body;
  match loginSchema b with
  | None => validation_failed "loginSchema" b
  | Some data =>
    try_catch
      ((* Find user *)
       userResult ← select_users (λ u, users.email u = li_email data)
                      (Some 1%nat);
       match userResult with
       | [] => c_json (error_body "Invalid credentials") 401
       | user :: _ =>
           (* Check if user is active *)
           if negb (users.isActive user) then
             c_json (error_body "Account is deactivated") 401
           else
             (* Verify password *)
             isValidPassword ← lift_res (comparePassword (li_password data)
                                           (users.password user));
             if negb isValidPassword then
               c_json (error_body "Invalid credentials") 401
             else
               (* Update last login *)
               now ← new_Date;
               _ ← update_users (users.set_lastLoginAt (Some now))
                     (λ u, users.id u = users.id user);
               (* Generate token *)
               token ← generate_token user;
               (* Remove password from response *)
               c_json (<["message" := JStr "Login successful"]>
                       (<["user" := JObj (userWithoutPassword user)]>
                       (<["token" := JStr token]> ∅))) 200
       end)
      (λ error,
         _ ← console_error "Login error:" error;
         c_json (error_body "Internal server error") 500)
  end.

(** Get current user profile: the handler behind [authMiddleware]. *)
Definition me_handler : M outcome :=
  try_catch
    (user ← c_get_user;
     match user with
     | None => throw (Exn "TypeError: undefined is not an object")
     | Some u =>
         userResult ← select_users (λ r, users.id r = au_id u) (Some 1%nat);
         match userResult with
         | [] => c_json (error_body "User not found") 404
         | found :: _ =>
             c_json {[ "user" := JObj (userWithoutPassword found) ]} 200
         end
     end)
    (λ error,
       _ ← console_error "Get profile error:" error;
       c_json (error_body "Internal server error") 500).

(** A route is its middlewares and handler in order; a stage runs when
    the one before it called [next]. *)
Fixpoint route (stages : list (M outcome)) : M outcome :=
  match stages with
  | [] => mret Passed
  | [h] => h
  | m :: rest =>
      o ← m;
      match o with
      | Respond r => mret (Respond r)
      | Passed => route rest
      end
  end.

(** [auth.get('/me', authMiddleware, ...)] *)
Definition me : M outcome := route [authMiddleware; me_handler].
End Gates.

(** ** A stand-in AuthService for running the handlers on concrete requests *)

Module Stub.
Definition bearer : string := "Bearer ".

(** One token is known, and it carries the claims of an administrator. *)
#[local] Instance auth : AuthService := {|
  extractTokenFromHeader h :=
    match h with
    | Some v =>
        if String.prefix bearer v
        then Some (String.substring 7 (String.length v - 7) v)
        else None
    | None => None
    end;
  verifyToken now t :=
    if String.eqb t "tok-1"
    then Ok (mkJWTPayload "u1" "a@x.com" "admin")
    else Throw (Exn "JsonWebTokenError: jwt malformed");
  generateToken now u := "tok-" ++ users.id u;
  hashPassword salt p := Ok ("$2$" ++ p);
  comparePassword p h := Ok (String.eqb ("$2$" ++ p) h);
|}.

Definition z_email (s : string) : bool :=
  match String.index 0 "@" s with Some _ => true | None => false end.

Definition z_issues (schema : string) (b : jsobj) : jsval :=
  JObj {[ "name" := JStr "ZodError" ]}.
End Stub.

(** ** Concrete requests and stores *)

Module Demo.
Import Stub.

(** The subject of token ["tok-1"]: stored as a customer, while the token
    was signed when she was an administrator. *)
Definition alice : users.row :=
  users.mk "u1" "a@x.com" "$2$pw12345678" (Some "Alice") None None
    customer true false None 0 0.

Definition alice_inactive : users.row :=
  users.mk "u1" "a@x.com" "$2$pw12345678" (Some "Alice") None None
    customer false false None 0 0.

(** A key that expires at time 1000. *)
Definition k1 : apiKeys.row :=
  apiKeys.mk "k1" "storefront" "zk_aa" None "u1" true None (Some 1000) 0 0.

Definition k2 : apiKeys.row :=
  apiKeys.mk "k2" "mobile" "zk_bb" None "u1" true None None 0 0.

Definition no_fault : nat → option exn := λ _, None.
Definition store_down : nat → option exn :=
  λ _, Some (Exn "connect ECONNREFUSED 10.0.0.5:5432").

(** A world whose clock stands at [t]. *)
Definition world (us : list users.row) (ks : list apiKeys.row)
    (r : Request) (c : Ctx) (t : Z) (f : nat → option exn) : World :=
  mkWorld us ks r c (λ _, t) 0%nat (λ _, x2a%byte) 0%nat f
    (λ _, "u-new") (λ _, t) 0%nat [].

Definition bearer_request : Request :=
  mkRequest {[ "Authorization" := "Bearer tok-1" ]} ∅ ∅ ∅.

Definition w_session : World :=
  world [alice] [k1; k2] bearer_request (mkCtx None None) 500 no_fault.

Definition w_inactive : World :=
  world [alice_inactive] [k1; k2] bearer_request (mkCtx None None) 500
    no_fault.

Definition w_store_down : World :=
  world [alice] [k1; k2] bearer_request (mkCtx None None) 500 store_down.

(** The key [k1] presented at the very instant it expires, and later. *)
Definition key_request : Request :=
  mkRequest {[ "X-API-Key" := "zk_aa" ]} ∅ ∅ ∅.

Definition w_key_at_expiry : World :=
  world [alice] [k1; k2] key_request (mkCtx None None) 1000 no_fault.

Definition w_key_expired : World :=
  world [alice] [k1; k2] key_request (mkCtx None None) 2000 no_fault.

(** An empty [X-API-Key] header next to an [api_key] query parameter. *)
Definition w_empty_header : World :=
  world [alice] [k1; k2]
    (mkRequest {[ "X-API-Key" := "" ]} {[ "api_key" := "zk_bb" ]} ∅ ∅)
    (mkCtx None None) 500 no_fault.

(** A staff request to regenerate the key [k1]. *)
Definition w_regenerate : World :=
  world [alice] [k1; k2]
    (mkRequest {[ "Authorization" := "Bearer tok-1" ]} ∅
       {[ "id" := "k1" ]} ∅)
    (mkCtx (Some (mkAuthUser "u1" "a@x.com" "admin")) None) 500 no_fault.

(** A registration that asks for the role of an administrator. *)
Definition w_register : World :=
  world [alice] [k1; k2]
    (mkRequest ∅ ∅ ∅
       (<["email" := JStr "b@x.com"]>
        (<["password" := JStr "pw12345678"]>
        (<["role" := JStr "admin"]> ∅))))
    (mkCtx None None) 500 no_fault.

(** A login with the credentials of [alice]. *)
Definition w_login : World :=
  world [alice] [k1; k2]
    (mkRequest ∅ ∅ ∅
       (<["email" := JStr "a@x.com"]>
        (<["password" := JStr "pw12345678"]> ∅)))
    (mkCtx None None) 500 no_fault.

Definition w_staff : World :=
  world [alice] [] bearer_request
    (mkCtx (Some (mkAuthUser "u2" "s@x.com" "staff")) None) 500 no_fault.
End Demo.

(** ** The gates as the specification words them *)

(** The four checks of the Session Auth Gate, in the order of the
    specification. *)
Inductive check : Type :=
  | ExtractToken
  | VerifyToken
  | LookupSubject
  | SubjectActive.

Section Specification.
Context `{svc : AuthService}.

(** The first check a request fails, trying them in order; [None] when it
    gets through all four. A store that cannot answer fails the lookup. *)
Definition first_failure (w : World) : option check :=
  let token :=
    extractTokenFromHeader (req_headers (req w) !! "Authorization") in
  if negb (truthy token) then Some ExtractToken
  else
    match verifyToken (clock w (dates w)) (default "" token) with
    | Throw _ => Some VerifyToken
    | Ok claims =>
        match fault w (trips w) with
        | Some _ => Some LookupSubject
        | None =>
            match filter (λ u, users.id u = userId claims) (tbl_users w) with
            | [] => Some LookupSubject
            | u :: _ =>
                if users.isActive u then None else Some SubjectActive
            end
        end
    end.

(** What the outside sees of a run of the gate that stops at [c]: nothing
    when no token was extracted, the verification alone when it fails, and
    the verification followed by the store lookup otherwise. *)
Definition effects_until (w : World) (c : option check) : list event :=
  let token :=
    default "" (extractTokenFromHeader
                  (req_headers (req w) !! "Authorization")) in
  match c with
  | Some ExtractToken => []
  | Some VerifyToken => [EvVerifyToken token]
  | _ => [EvVerifyToken token; EvSelectUsers]
  end.

(** The error message the gate gives when it stops at [c]. A lookup that
    fails because the store throws, rather than because no row is found,
    is answered like a token that does not verify. *)
Definition rejection_message (w : World) (c : check) : string :=
  match c with
  | ExtractToken => "Authorization token required"
  | VerifyToken => "Invalid or expired token"
  | LookupSubject =>
      match fault w (trips w) with
      | Some _ => "Invalid or expired token"
      | None => "User not found or inactive"
      end
  | SubjectActive => "User not found or inactive"
  end.

End Specification.

(** A response that shows no password: no such field in the body, and
    none in the user object the body may carry. *)
Definition without_password (r : Response) : Prop :=
  body r !! "password" = None
  ∧ ∀ o, body r !! "user" = Some (JObj o) → o !! "password" = None.

(** A response whose user object is the row [u] less its password. *)
Definition returns_user (r : Response) (u : users.row) : Prop :=
  body r !! "user" = Some (JObj (delete "password" (users.to_obj u))).

(** What an endpoint is asked to guarantee for its answer [res]: it is a
    response, it shows no password, and when its status is [ok] it returns a
    row of [tbl] less the password. *)
Definition answers (ok : Z) (tbl : list users.row)
    (res : Res outcome * World) : Prop :=
  ∃ r, fst res = Ok (Respond r)
       ∧ without_password r
       ∧ (status r = ok → ∃ u, u ∈ tbl ∧ returns_user r u).

(** A lower-case hexadecimal digit. *)
Definition is_hex_digit (a : ascii) : bool :=
  existsb (Ascii.eqb a) (list_ascii_of_string "0123456789abcdef").

(** The rows the query of the API key gate returns for the value [v]. *)
Definition active_keys (v : string) (t : list apiKeys.row)
    : list apiKeys.row :=
  filter (λ k, apiKeys.key k = v ∧ apiKeys.isActive k = true) t.


(** The invariant of the specification: a key is usable if and only if it
    is active and its expiry is unset or later than now. *)
Definition usable (now : Z) (k : apiKeys.row) : Prop :=
  apiKeys.isActive k = true
  ∧ (apiKeys.expiresAt k = None
     ∨ ∃ e, apiKeys.expiresAt k = Some e ∧ now < e).

(** The same with the instant of expiry itself included. *)
Definition usable_until (now : Z) (k : apiKeys.row) : Prop :=
  apiKeys.isActive k = true
  ∧ (apiKeys.expiresAt k = None
     ∨ ∃ e, apiKeys.expiresAt k = Some e ∧ now ≤ e).

(** * The rest of the routes *)

(** ** More statements of the store *)

(** A round trip for the statements the handler log has no name for: it is
    counted and meets the same faults, and leaves the log alone. The faults
    of a round trip are all the errors the driver raises that the tables do
    not decide: a lost connection, and also an id that is not in the form
    of a uuid or a value too long for its column. *)
Definition round_trip_unlogged : M nat := λ w,
  let n := trips w in
  let w' := with_trips (S n) w in
  match fault w n with
  | Some err => (Throw err, w')
  | None => (Ok n, w')
  end.

(** The primary key of [api_keys]. *)
Definition ids_unique (t : list apiKeys.row) : Prop :=
  NoDup (apiKeys.id <$> t).

(** [db.delete(apiKeys).where(P).returning()]: no table refers to
    [api_keys], so the statement is never refused. *)
Definition delete_apiKeys (P : apiKeys.row → Prop) `{!∀ k, Decision (P k)}
    : M (list apiKeys.row) :=
  _ ← round_trip_unlogged;
  step (λ w,
    (Ok (filter P (tbl_apiKeys w)),
     with_apiKeys (filter (λ k, ¬ P k) (tbl_apiKeys w)) w)).

(** [typeof apiKeys.$inferInsert], as far as the routes fill it in. *)
Record NewApiKey : Type := mkNewApiKey {
  nk_name : string;
  nk_key : string;
  nk_description : option string;
  nk_createdBy : string;
  nk_isActive : option bool;
  nk_expiresAt : option Z;
}.

(** [db.insert(apiKeys).values(v).returning()]: the missing columns take
    their defaults; the primary key, the [unique()] key value and the
    reference from [created_by] to [users.id] are enforced. *)
Definition insert_apiKeys (v : NewApiKey) : M (list apiKeys.row) :=
  n ← round_trip_unlogged;
  step (λ w,
    let k := apiKeys.mk (db_uuid w n) (nk_name v) (nk_key v)
               (nk_description v) (nk_createdBy v)
               (default true (nk_isActive v)) None (nk_expiresAt v)
               (db_now w n) (db_now w n) in
    if decide (apiKeys.id k ∈ apiKeys.id <$> tbl_apiKeys w
               ∨ apiKeys.key k ∈ apiKeys.key <$> tbl_apiKeys w) then
      (Throw (Exn "duplicate key value violates unique constraint"), w)
    else if decide (apiKeys.createdBy k ∈ users.id <$> tbl_users w) then
      (Ok [k], with_apiKeys (tbl_apiKeys w ++ [k]) w)
    else
      (Throw (Exn "insert or update violates foreign key constraint"), w)).

(** [console.log(...)]: standard output is not part of the world. *)
Definition console_log (line : string) : M unit := mret ().

(** ** [src/routes/apiKeys.ts], the other routes *)

Section KeyRoutes.
Context `{svc : AuthService}.

(** The report of the validation library, as for the auth routes. *)
Variable z_issues : string → jsobj → jsval.

(** The format test behind [z.string().datetime()], which belongs to the
    validation library. *)
Variable z_datetime : string → bool.

(** [new Date(s).getTime()] for an ISO date-time string. *)
Variable Date_parse : string → Z.

(** [z.infer<typeof createApiKeySchema>] *)
Record CreateApiKeyInput : Type := mkCreateApiKeyInput {
  cak_name : string;
  cak_description : option string;
  cak_expiresAt : option string;
}.

(** [z.infer<typeof updateApiKeySchema>] *)
Record UpdateApiKeyInput : Type := mkUpdateApiKeyInput {
  uak_name : option string;
  uak_description : option string;
  uak_isActive : option bool;
  uak_expiresAt : option string;
}.

(** [z.string().datetime().optional()] *)
Definition z_string_datetime_optional (v : option jsval)
    : option (option string) :=
  match v with
  | None => Some None
  | Some (JStr s) => if z_datetime s then Some (Some s) else None
  | Some _ => None
  end.

(** [z.boolean().optional()] *)
Definition z_boolean_optional (v : option jsval) : option (option bool) :=
  match v with
  | None => Some None
  | Some (JBool b) => Some (Some b)
  | Some _ => None
  end.

(** [insertApiKeySchema.pick({ name, description, expiresAt })] *)
Definition createApiKeySchema (b : jsobj) : option CreateApiKeyInput :=
  n ← z_string_min 1 (b !! "name");
  d ← z_string_min_optional 0 (b !! "description");
  e ← z_string_datetime_optional (b !! "expiresAt");
  Some (mkCreateApiKeyInput n d e).

Definition updateApiKeySchema (b : jsobj) : option UpdateApiKeyInput :=
  n ← z_string_min_optional 1 (b !! "name");
  d ← z_string_min_optional 0 (b !! "description");
  a ← z_boolean_optional (b !! "isActive");
  e ← z_string_datetime_optional (b !! "expiresAt");
  Some (mkUpdateApiKeyInput n d a e).

(** [data.expiresAt ? new Date(data.expiresAt) : ...]: the date, when the
    string is there and not empty. *)
Definition expiry_of (s : option string) : option Z :=
  if truthy s then Some (Date_parse (default "" s)) else None.

(** Get single API key *)
Definition get_apiKey : M outcome :=
  try_catch
    (id ← c_req_param "id";
     rows ← select_apiKeys (λ k, apiKeys.id k = id);
     match rows with
     | [] => c_json (error_body "API key not found") 404
     | apiKey :: _ => c_json {[ "data" := JObj (apiKeys.to_obj apiKey) ]} 200
     end)
    (λ error,
       _ ← console_error "Get API key error:" error;
       c_json (error_body "Failed to fetch API key") 500).

(** Create new API key *)
Definition create_apiKey : M outcome :=
  b ← req_body;
  match createApiKeySchema b with
  | None => validation_failed z_issues "createApiKeySchema" b
  | Some data =>
    try_catch
      (user ← c_get_user;
       key ← generateApiKey;
       match user with
       | None => throw (Exn "TypeError: undefined is not an object")
       | Some u =>
           created ← insert_apiKeys
                       (mkNewApiKey (cak_name data) key
                          (cak_description data) (au_id u) None
                          (expiry_of (cak_expiresAt data)));
           match created with
           | [] => c_json ∅ 201
           | k :: _ => c_json {[ "data" := JObj (apiKeys.to_obj k) ]} 201
           end
       end)
      (λ error,
         _ ← console_error "Create API key error:" error;
         c_json (error_body "Failed to create API key") 500)
  end.

(** [.set({ ...data, expiresAt: ..., updatedAt: now })]: a key the body
    leaves out, and an [undefined] value, leave the column as it is. *)
Definition set_updateData (data : UpdateApiKeyInput) (now : Z)
    (k : apiKeys.row) : apiKeys.row :=
  apiKeys.mk (apiKeys.id k)
    (default (apiKeys.name k) (uak_name data))
    (apiKeys.key k)
    (match uak_description data with
     | Some d => Some d
     | None => apiKeys.description k
     end)
    (apiKeys.createdBy k)
    (default (apiKeys.isActive k) (uak_isActive data))
    (apiKeys.lastUsedAt k)
    (match expiry_of (uak_expiresAt data) with
     | Some t => Some t
     | None => apiKeys.expiresAt k
     end)
    (apiKeys.createdAt k)
    now.

(** Update API key *)
Definition update_apiKey : M outcome :=
  b ← req_body;
  match updateApiKeySchema b with
  | None => validation_failed z_issues "updateApiKeySchema" b
  | Some data =>
    try_catch
      (id ← c_req_param "id";
       now ← new_Date;
       rows ← update_apiKeys (set_updateData data now)
                (λ k, apiKeys.id k = id);
       match rows with
       | [] => c_json (error_body "API key not found") 404
       | updated :: _ =>
           c_json {[ "data" := JObj (apiKeys.to_obj updated) ]} 200
       end)
      (λ error,
         _ ← console_error "Update API key error:" error;
         c_json (error_body "Failed to update API key") 500)
  end.

(** Delete API key *)
Definition delete_apiKey : M outcome :=
  try_catch
    (id ← c_req_param "id";
     rows ← delete_apiKeys (λ k, apiKeys.id k = id);
     match rows with
     | [] => c_json (error_body "API key not found") 404
     | deleted :: _ =>
         c_json {[ "message" := JStr "API key deleted successfully" ]} 200
     end)
    (λ error,
       _ ← console_error "Delete API key error:" error;
       c_json (error_body "Failed to delete API key") 500).

(** [router.use('*', authMiddleware); router.use('*', requireStaff)]: every
    route of the API keys router and of the admin router sits behind the
    two gates, as do the [/admin/*] routes of the products router. *)
Definition staff_route (handler : M outcome) : M outcome :=
  route [authMiddleware; requireStaff; handler].

(** [publicRouter.use('*', apiKeyMiddleware)] *)
Definition public_route (handler : M outcome) : M outcome :=
  route [apiKeyMiddleware; handler].

(** ** [src/routes/auth.ts], the refresh route *)

(** Refresh token: the handler behind [authMiddleware]. *)
Definition refresh_handler : M outcome :=
  try_catch
    (user ← c_get_user;
     match user with
     | None => throw (Exn "TypeError: undefined is not an object")
     | Some u =>
         userResult ← select_users (λ r, users.id r = au_id u) (Some 1%nat);
         if (length userResult =? 0)%nat
            || negb (from_option users.isActive false (userResult !! 0%nat))
         then c_json (error_body "User not found or inactive") 404
         else
           match userResult with
           | [] => throw (Exn "TypeError: undefined is not an object")
           | found :: _ =>
               token ← generate_token found;
               c_json (<["message" := JStr "Token refreshed successfully"]>
                       (<["token" := JStr token]> ∅)) 200
           end
     end)
    (λ error,
       _ ← console_error "Token refresh error:" error;
       c_json (error_body "Internal server error") 500).

(** [auth.post('/refresh', authMiddleware, ...)] *)
Definition refresh : M outcome := route [authMiddleware; refresh_handler].

(** ** The script that creates the administrator *)

Definition adminEmail : string := "admin@zupp.store".
Definition adminPassword : string := "admin123".

(** [createAdminUser()]; the process exits with status 0 whatever
    happened. *)
Definition createAdminUser : M unit :=
  try_catch
    ((* Check if admin user already exists *)
     existingAdmin ← select_users (λ u, users.email u = adminEmail)
                       (Some 1%nat);
     if (0 <? length existingAdmin)%nat then
       console_log "Admin user already exists:"
     else
       (* Hash the password *)
       hashedPassword ← hash_password adminPassword;
       (* Create admin user *)
       newAdmin ← insert_users
                    (mkNewUser adminEmail hashedPassword (Some "Admin")
                       (Some "User") None (Some admin) (Some true)
                       (Some true));
       _ ← console_log "Admin user created successfully!";
       _ ← console_log "Email:";
       _ ← console_log "Password:";
       match newAdmin with
       | [] => throw (Exn "TypeError: undefined is not an object")
       | created :: _ => console_log "User ID:"
       end)
    (λ error, console_error "Error creating admin user:" error).

End KeyRoutes.

(** ** What the routes are asked to keep *)

(** What an update of a key row must not touch: its id, its secret, who
    created it and when, and when it was last used; and an expiry that is
    set stays set. *)
Definition keeps_identity (r r' : apiKeys.row) : Prop :=
  apiKeys.id r' = apiKeys.id r
  ∧ apiKeys.key r' = apiKeys.key r
  ∧ apiKeys.createdBy r' = apiKeys.createdBy r
  ∧ apiKeys.createdAt r' = apiKeys.createdAt r
  ∧ apiKeys.lastUsedAt r' = apiKeys.lastUsedAt r
  ∧ (is_Some (apiKeys.expiresAt r) → is_Some (apiKeys.expiresAt r')).

(** The constraints of the schema: the primary keys, the [unique()]
    columns, and the reference from a key to the user who created it. *)
Definition db_ok (w : World) : Prop :=
  NoDup (users.id <$> tbl_users w)
  ∧ NoDup (users.email <$> tbl_users w)
  ∧ ids_unique (tbl_apiKeys w)
  ∧ keys_unique (tbl_apiKeys w)
  ∧ ∀ k, k ∈ tbl_apiKeys w → apiKeys.createdBy k ∈ users.id <$> tbl_users w.

(** The ways a handler changes the users table: not in its ids and
    emails, or by one row whose id and email are new. *)
Definition users_step (t t' : list users.row) : Prop :=
  (users.id <$> t' = users.id <$> t ∧ users.email <$> t' = users.email <$> t)
  ∨ ∃ u, t' = (t ++ [u])%list
         ∧ (users.id u ∉ users.id <$> t)
         ∧ (users.email u ∉ users.email <$> t).

(** The ways a handler changes the keys table: rows rewritten in place
    with ids and creators kept and the key values still distinct, one row
    added that meets the constraints, or rows removed. *)
Definition keys_step (us : list users.row) (t t' : list apiKeys.row)
    : Prop :=
  t' = t
  ∨ (apiKeys.id <$> t' = apiKeys.id <$> t
     ∧ apiKeys.createdBy <$> t' = apiKeys.createdBy <$> t
     ∧ keys_unique t')
  ∨ (∃ k, t' = (t ++ [k])%list
          ∧ (apiKeys.id k ∉ apiKeys.id <$> t)
          ∧ (apiKeys.key k ∉ apiKeys.key <$> t)
          ∧ apiKeys.createdBy k ∈ users.id <$> us)
  ∨ (∃ (Q : apiKeys.row → Prop) (_ : ∀ k, Decision (Q k)), t' = filter Q t).

(** A handler whose every run is made of such steps. *)
Definition lawful {A} (h : M A) : Prop :=
  ∀ w, users_step (tbl_users w) (tbl_users (snd (h w)))
       ∧ keys_step (tbl_users w) (tbl_apiKeys w) (tbl_apiKeys (snd (h w))).

(** ** The application *)

Section App.
Context `{svc : AuthService}.
Variable z_email : string → bool.
Variable z_issues : string → jsobj → jsval.
Variable z_datetime : string → bool.
Variable Date_parse : string → Z.

(** The routes of [auth] and of [apiKeysRouter] that write to or read one
    row of the store. *)
Inductive endpoint : Type :=
  | POST_auth_register
  | POST_auth_login
  | GET_auth_me
  | POST_auth_refresh
  | GET_apiKeys_id
  | POST_apiKeys
  | PUT_apiKeys_id
  | DELETE_apiKeys_id
  | POST_apiKeys_id_regenerate.

(** Each route with the middlewares registered in front of it. *)
Definition serve (e : endpoint) : M outcome :=
  match e with
  | POST_auth_register => register z_email z_issues
  | POST_auth_login => login z_email z_issues
  | GET_auth_me => me
  | POST_auth_refresh => refresh
  | GET_apiKeys_id => staff_route get_apiKey
  | POST_apiKeys => staff_route (create_apiKey z_issues z_datetime Date_parse)
  | PUT_apiKeys_id =>
      staff_route (update_apiKey z_issues z_datetime Date_parse)
  | DELETE_apiKeys_id => staff_route delete_apiKey
  | POST_apiKeys_id_regenerate => staff_route regenerate
  end.

(** A request arrives with a context of its own: nothing set with
    [c.set] survives from one request to the next. *)
Definition handle (e : endpoint) (r : Request) : M outcome :=
  λ w, serve e (with_ctx (mkCtx None None) (with_req r w)).

(** Requests served one after the other. *)
Fixpoint serve_all (reqs : list (endpoint * Request)) (w : World) : World :=
  match reqs with
  | [] => w
  | (e, r) :: rest => serve_all rest (snd (handle e r w))
  end.

End App.

(** ** More concrete requests and stores *)

Module Scenario.
Import Demo.

Definition z_datetime (s : string) : bool := String.prefix "20" s.

(** Every date string of the examples stands for the instant 5000. *)
Definition Date_parse (s : string) : Z := 5000.

(** A store that answers its first round trip and fails the second. *)
Definition second_trip_fails : nat → option exn :=
  λ n, if (n =? 1)%nat then Some (Exn "Connection terminated unexpectedly")
       else None.

(** The key [k2], which never expires, presented to a store that cannot
    write. *)
Definition w_touch_fails : World :=
  world [alice] [k1; k2]
    (mkRequest {[ "X-API-Key" := "zk_bb" ]} ∅ ∅ ∅)
    (mkCtx None None) 500 second_trip_fails.

(** The key [k1] presented before it expires. *)
Definition w_key_valid : World :=
  world [alice] [k1; k2] key_request (mkCtx None None) 500 no_fault.
(** Requests to the API keys router from the administrator [u1]. *)
Definition staff_ctx : Ctx :=
  mkCtx (Some (mkAuthUser "u1" "a@x.com" "admin")) None.

Definition w_missing_id : World :=
  world [alice] [k1; k2]
    (mkRequest ∅ ∅ {[ "id" := "k9" ]} ∅) staff_ctx 500 no_fault.

Definition w_deactivate : World :=
  world [alice] [k1; k2]
    (mkRequest ∅ ∅ {[ "id" := "k1" ]} {[ "isActive" := JBool false ]})
    staff_ctx 500 no_fault.

(** A body that tries to choose the secret, the owner and the state of
    the key it asks for. *)
Definition w_create : World :=
  world [alice] [k1; k2]
    (mkRequest ∅ ∅ ∅
       (<["name" := JStr "ci"]>
        (<["key" := JStr "zk_chosen"]>
        (<["createdBy" := JStr "u7"]>
        (<["isActive" := JBool false]> ∅)))))
    staff_ctx 500 no_fault.

(** A later request that presents the value the create route generated
    for [w_create]. *)
Definition w_created_key_used (after : World) : World :=
  with_req
    (mkRequest
       {[ "X-API-Key" := "zk_" +:+ toString_hex (next_bytes 32 w_create) ]}
       ∅ ∅ ∅)
    after.

(** Logins that are refused: a wrong password, an email that no row
    carries, and a deactivated account. *)
Definition login_request (email password : string) : Request :=
  mkRequest ∅ ∅ ∅
    (<["email" := JStr email]> (<["password" := JStr password]> ∅)).

Definition w_wrong_password : World :=
  world [alice] [k1; k2] (login_request "a@x.com" "letmein")
    (mkCtx None None) 500 no_fault.

Definition w_unknown_email : World :=
  world [alice] [k1; k2] (login_request "z@x.com" "pw12345678")
    (mkCtx None None) 500 no_fault.

Definition w_login_inactive : World :=
  world [alice_inactive] [k1; k2] (login_request "a@x.com" "pw12345678")
    (mkCtx None None) 500 no_fault.

(** A login with the credentials registered in [w_register], on the store
    that the registration left. *)
Definition w_login_after_register (after : World) : World :=
  with_req (login_request "b@x.com" "pw12345678") after.

(** A registration followed by a login and by the deletion of a key. *)
Definition session : list (endpoint * Request) :=
  [ (POST_auth_register, req w_register);
    (POST_auth_login, login_request "b@x.com" "pw12345678");
    (DELETE_apiKeys_id,
     mkRequest {[ "Authorization" := "Bearer tok-1" ]} ∅
       {[ "id" := "k1" ]} ∅) ].

(** A request that passes both the session gate and the API key gate and
    names the key [k1]. *)
Definition w_both_gates : World :=
  world [alice] [k1; k2]
    (mkRequest (<["Authorization" := "Bearer tok-1"]>
                  {[ "X-API-Key" := "zk_bb" ]}) ∅ {[ "id" := "k1" ]} ∅)
    (mkCtx None None) 500 no_fault.
End Scenario.
(** ** The random source and the password hashes as inputs *)

(** The world [w] with the random source replaced by one that yields the
    bytes [bs] next. *)
Definition with_entropy (bs : list byte) (w : World) : World :=
  mkWorld (tbl_users w) (tbl_apiKeys w) (req w) (ctx w) (clock w) (dates w)
    (λ i, nth (i - drawn w) bs x00%byte) (drawn w) (fault w) (db_uuid w)
    (db_now w) (trips w) (trace w).

(** The row [u] with another value in its [password] column. *)
Definition set_password (h : string) (u : users.row) : users.row :=
  users.mk (users.id u) (users.email u) h (users.firstName u)
    (users.lastName u) (users.phone u) (users.role u) (users.isActive u)
    (users.emailVerified u) (users.lastLoginAt u) (users.createdAt u)
    (users.updatedAt u).

(** The world [w] with the password hash of every stored row [u] replaced
    by [f u]. *)
Definition rehash (f : users.row → string) (w : World) : World :=
  with_users ((λ u, set_password (f u) u) <$> tbl_users w) w.

(** The service [svc] with another hasher. *)
Definition with_hasher (svc : AuthService)
    (hash : list byte → string → Res string) : AuthService := {|
  extractTokenFromHeader := @extractTokenFromHeader svc;
  verifyToken := @verifyToken svc;
  generateToken := @generateToken svc;
  hashPassword := hash;
  comparePassword := @comparePassword svc;
|}.

(** Two results that are both values or both exceptions. *)
Definition same_kind {A} (r r' : Res A) : Prop :=
  match r, r' with
  | Ok _, Ok _ => True
  | Throw _, Throw _ => True
  | _, _ => False
  end.

(** Two verdicts of [comparePassword] that a caller cannot tell apart by
    the answer it gets: the same boolean, or an exception in both. *)
Definition same_verdict (r r' : Res bool) : Prop :=
  match r, r' with
  | Ok b, Ok b' => b = b'
  | Throw _, Throw _ => True
  | _, _ => False
  end.

(** Modelled from the spec: [issue] "builds claims {subjectId, email, role,
    issuedAt: now, expiresAt: now + TTL}, serializes and signs them", so
    the token does not depend on the password of the row it is given.
    [lib/auth.ts], which holds [generateToken], is not among the
    sources. *)
Definition token_ignores_password (svc : AuthService) : Prop :=
  ∀ now u h,
    @generateToken svc now (set_password h u) = @generateToken svc now u.

(** ** A random source that repeats itself *)

Module Replay.
Import Demo.

(** The value the generator builds from thirty-two bytes [2a]. *)
Definition value_2a : string :=
  "zk_2a2a2a2a2a2a2a2a2a2a2a2a2a2a2a2a2a2a2a2a2a2a2a2a2a2a2a2a2a2a2a2a".

(** The key [k1] as a regeneration at time 500 left it in a world whose
    random source yields the byte [2a] over and over. *)
Definition k1_regenerated : apiKeys.row :=
  apiKeys.mk "k1" "storefront" value_2a None "u1" true None (Some 1000)
    0 500.

(** A staff request to regenerate that key again, the source still
    yielding the same bytes. *)
Definition w_regenerate_again : World :=
  world [alice] [k1_regenerated; k2] (req w_regenerate) (ctx w_regenerate)
    500 no_fault.

End Replay.

(** ** Proof automation *)

(** Unfolds the monad so that a handler becomes a term on the world. *)
Ltac run :=
  repeat (progress (unfold try_catch, step, lift_res, throw, emit,
                      console_error, c_json, next, new_Date, randomBytes,
                      req_header, req_query, c_req_param, req_body,
                      c_get_user, c_set_user, c_set_apiKey, round_trip,
                      mbind, M_bind, mret, M_ret; cbn)).

(** Closes a branch of a gate once its result is a value. *)
Ltac stopped :=
  eexists _, _; split; [reflexivity|]; cbn;
  rewrite ?app_nil_r, <- ?app_assoc; repeat split; eauto; try lia.

(** Closes a branch of a route that ends in an error response. *)
Ltac refused :=
  eexists; split; [reflexivity|]; split; [by split|];
  cbn; intros; discriminate.

#[global] Arguments truthy : simpl never.
#[global] Arguments next_bytes : simpl never.
#[global] Arguments toString_hex : simpl never.

(** * Properties *)

Lemma truthy_Some (x : option string) :
  truthy x = true ↔ ∃ s, x = Some s ∧ s ≠ "".
Proof.
  destruct x as [s|]; unfold truthy.
  - rewrite negb_true_iff. split.
    + intros E. exists s. split; [done|].
      intros ->. by rewrite String.eqb_refl in E.
    + intros (s' & [= <-] & Hne). by apply String.eqb_neq.
  - split; [done|]. by intros (? & ? & _).
Qed.

(** ** The Role Gate *)

Lemma requireRole_outside (roles : list string) (w : World) (u : AuthUser) :
  ctx_user (ctx w) = Some u → au_role u ∉ roles →
  requireRole roles w =
    (Ok (Respond (mkResponse 403 (error_body "Insufficient permissions"))), w).
Proof.
  intros Hu Hr. unfold requireRole. run. rewrite Hu.
  by rewrite bool_decide_eq_false_2.
Qed.

Lemma requireRole_inside (roles : list string) (w : World) (u : AuthUser) :
  ctx_user (ctx w) = Some u → au_role u ∈ roles →
  requireRole roles w = (Ok Passed, w).
Proof.
  intros Hu Hr. unfold requireRole. run. rewrite Hu.
  by rewrite bool_decide_eq_true_2.
Qed.

(** C5: the Role Gate answers 401 when no identity is attached, 403 when
    the attached role is outside the allow-set, and otherwise hands the
    request on with the world untouched; [requireAdmin] is the gate for
    {admin} and [requireStaff] the gate for {admin, staff}, so the former
    turns a staff identity away with 403 and lets an admin identity in. *)
Theorem requireRole_decides (roles : list string) (w : World) :
  (ctx_user (ctx w) = None →
     requireRole roles w =
       (Ok (Respond (mkResponse 401 (error_body "Authentication required"))),
        w))
  ∧ (∀ u, ctx_user (ctx w) = Some u → au_role u ∉ roles →
       requireRole roles w =
         (Ok (Respond (mkResponse 403
                (error_body "Insufficient permissions"))), w))
  ∧ (∀ u, ctx_user (ctx w) = Some u → au_role u ∈ roles →
       requireRole roles w = (Ok Passed, w))
  ∧ requireAdmin = requireRole ["admin"]
  ∧ requireStaff = requireRole ["admin"; "staff"]
  ∧ (∀ u, ctx_user (ctx w) = Some u → au_role u = "staff" →
       requireAdmin w =
         (Ok (Respond (mkResponse 403
                (error_body "Insufficient permissions"))), w)
       ∧ requireStaff w = (Ok Passed, w))
  ∧ (∀ u, ctx_user (ctx w) = Some u → au_role u = "admin" →
       requireAdmin w = (Ok Passed, w) ∧ requireStaff w = (Ok Passed, w)).
Proof.
  split; [|split; [|split; [|split; [|split; [|split]]]]].
  - intros Hu. unfold requireRole. run. by rewrite Hu.
  - intros u. apply requireRole_outside.
  - intros u. apply requireRole_inside.
  - reflexivity.
  - reflexivity.
  - intros u Hu Hr. split.
    + apply requireRole_outside with u; [done|]. rewrite Hr.
      by apply (bool_decide_unpack _).
    + apply requireRole_inside with u; [done|]. rewrite Hr.
      by apply (bool_decide_unpack _).
  - intros u Hu Hr. split.
    + apply requireRole_inside with u; [done|]. rewrite Hr.
      by apply (bool_decide_unpack _).
    + apply requireRole_inside with u; [done|]. rewrite Hr.
      by apply (bool_decide_unpack _).
Qed.

(** ** The Session Auth Gate *)

Section SessionGate.
Context `{svc : AuthService}.

(** The gate never lets an exception out, whatever the request. *)
Lemma authMiddleware_run (w : World) :
  ∃ out w',
    authMiddleware w = (Ok out, w')
    ∧ trace w' = (trace w ++ effects_until w (first_failure w))%list
    ∧ trips w' =
        (trips w + length (List.filter is_store_access
                             (effects_until w (first_failure w))))%nat
    ∧ tbl_users w' = tbl_users w
    ∧ tbl_apiKeys w' = tbl_apiKeys w
    ∧ match first_failure w with
      | Some c =>
          ctx w' = ctx w
          ∧ out = Respond (mkResponse 401
                             (error_body (rejection_message w c)))
      | None =>
          out = Passed
          ∧ ∃ claims,
              verifyToken (clock w (dates w))
                (default "" (extractTokenFromHeader
                               (req_headers (req w) !! "Authorization")))
              = Ok claims
              ∧ ctx w' = mkCtx (Some (mkAuthUser (userId claims)
                                        (email claims) (role claims)))
                           (ctx_apiKey (ctx w))
      end.
Proof.
  unfold authMiddleware, first_failure, effects_until, rejection_message,
    verify_token, select_users.
  run.
  destruct (truthy _) eqn:Htok; cbn; [|stopped].
  destruct (verifyToken _ _) as [claims|e] eqn:Hver; cbn; [|stopped].
  destruct (fault w (trips w)) as [e|] eqn:Hf; cbn; [stopped|].
  destruct (filter _ (tbl_users w)) as [|u rest] eqn:Hsel; cbn; [stopped|].
  destruct (users.isActive u) eqn:Hact; cbn; stopped.
Qed.

End SessionGate.

(** ** The API key gate *)

Lemma js_or_truthy (a b : option string) :
  truthy a = true → js_or a b = a.
Proof. unfold js_or. by intros ->. Qed.

Lemma js_or_falsy (a b : option string) :
  truthy a = false → js_or a b = b.
Proof. unfold js_or. by intros ->. Qed.

Lemma presented_apiKey_run (w : World) :
  presented_apiKey w =
    (Ok (js_or (req_headers (req w) !! "X-API-Key")
               (req_queries (req w) !! "api_key")), w).
Proof. reflexivity. Qed.

(** Updating [lastUsedAt] keeps every key value, hence the constraint. *)
Lemma set_lastUsedAt_keys (t : list apiKeys.row) (now : Z)
    (P : apiKeys.row → Prop) `{!∀ k, Decision (P k)} :
  apiKeys.key <$> ((λ k, if decide (P k) then apiKeys.set_lastUsedAt now k
                         else k) <$> t)
  = apiKeys.key <$> t.
Proof.
  induction t as [|k t IH]; [done|]. cbn. rewrite IH.
  by destruct (decide (P k)).
Qed.

(** Under the [unique()] constraint a key value names one row. *)
Lemma keys_unique_inj (t : list apiKeys.row) (k k' : apiKeys.row) :
  keys_unique t → k ∈ t → k' ∈ t → apiKeys.key k = apiKeys.key k' → k = k'.
Proof.
  unfold keys_unique. induction t as [|x t IH]; intros Hnd Hk Hk' E.
  - by apply elem_of_nil in Hk.
  - rewrite fmap_cons in Hnd. apply NoDup_cons in Hnd as [Hx Hnd].
    apply elem_of_cons in Hk as [->|Hk];
      apply elem_of_cons in Hk' as [->|Hk']; auto.
    + exfalso. apply Hx. rewrite E. by apply list_elem_of_fmap_2.
    + exfalso. apply Hx. rewrite <- E. by apply list_elem_of_fmap_2.
Qed.

Lemma apiKeyMiddleware_missing (w : World) :
  truthy (js_or (req_headers (req w) !! "X-API-Key")
                (req_queries (req w) !! "api_key")) = false →
  apiKeyMiddleware w =
    (Ok (Respond (mkResponse 401 (error_body "API key is required"))), w).
Proof.
  intros Hf. unfold apiKeyMiddleware, presented_apiKey. run. by rewrite Hf.
Qed.

Section KeyGate.
Variable w : World.
Variable apiKey : string.
Hypothesis Hkey : fst (presented_apiKey w) = Ok (Some apiKey).
Hypothesis Hne : apiKey ≠ "".

Lemma apiKey_truthy :
  js_or (req_headers (req w) !! "X-API-Key")
        (req_queries (req w) !! "api_key") = Some apiKey
  ∧ truthy (Some apiKey) = true.
Proof.
  rewrite presented_apiKey_run in Hkey. cbn in Hkey.
  split; [congruence|]. apply truthy_Some. eauto.
Qed.

Lemma apiKeyMiddleware_store_down (e : exn) :
  fault w (trips w) = Some e →
  fst (apiKeyMiddleware w) =
    Ok (Respond (mkResponse 500 (error_body "Authentication failed")))
  ∧ ctx (snd (apiKeyMiddleware w)) = ctx w
  ∧ trace (snd (apiKeyMiddleware w)) =
      (trace w ++ [EvSelectApiKeys;
                   EvConsoleError "API key middleware error:" e])%list.
Proof.
  destruct apiKey_truthy as [Hor Ht]. intros Hf.
  unfold apiKeyMiddleware, presented_apiKey, select_apiKeys. run.
  rewrite Hor, Ht. cbn. rewrite Hf. cbn. by rewrite <- app_assoc.
Qed.

Lemma apiKeyMiddleware_invalid :
  fault w (trips w) = None → active_keys apiKey (tbl_apiKeys w) = [] →
  fst (apiKeyMiddleware w) =
    Ok (Respond (mkResponse 401 (error_body "Invalid API key")))
  ∧ ctx (snd (apiKeyMiddleware w)) = ctx w.
Proof.
  destruct apiKey_truthy as [Hor Ht]. intros Hf Hnil.
  unfold apiKeyMiddleware, presented_apiKey, select_apiKeys. run.
  rewrite Hor, Ht. cbn. rewrite Hf. cbn.
  fold (active_keys apiKey (tbl_apiKeys w)). by rewrite Hnil.
Qed.

Lemma apiKeyMiddleware_expired (k : apiKeys.row) (rest : list apiKeys.row)
    (e : Z) :
  fault w (trips w) = None → active_keys apiKey (tbl_apiKeys w) = k :: rest →
  apiKeys.expiresAt k = Some e → e < clock w (dates w) →
  fst (apiKeyMiddleware w) =
    Ok (Respond (mkResponse 401 (error_body "API key has expired")))
  ∧ ctx (snd (apiKeyMiddleware w)) = ctx w.
Proof.
  destruct apiKey_truthy as [Hor Ht]. intros Hf Hfound He Hlt.
  unfold apiKeyMiddleware, presented_apiKey, select_apiKeys. run.
  rewrite Hor, Ht. cbn. rewrite Hf. cbn.
  fold (active_keys apiKey (tbl_apiKeys w)). rewrite Hfound, He. cbn.
  apply Z.ltb_lt in Hlt. by rewrite Hlt.
Qed.

Lemma apiKeyMiddleware_accepts (k : apiKeys.row) (rest : list apiKeys.row) :
  keys_unique (tbl_apiKeys w) →
  fault w (trips w) = None → fault w (S (trips w)) = None →
  active_keys apiKey (tbl_apiKeys w) = k :: rest →
  match apiKeys.expiresAt k with
  | None => True
  | Some e => clock w (dates w) ≤ e
  end →
  fst (apiKeyMiddleware w) = Ok Passed
  ∧ ctx (snd (apiKeyMiddleware w)) = mkCtx (ctx_user (ctx w)) (Some k).
Proof.
  destruct apiKey_truthy as [Hor Ht]. intros Hu Hf Hf' Hfound He.
  unfold apiKeyMiddleware, presented_apiKey, select_apiKeys, update_apiKeys.
  run. rewrite Hor, Ht. cbn. rewrite Hf. cbn.
  fold (active_keys apiKey (tbl_apiKeys w)). rewrite Hfound.
  destruct (apiKeys.expiresAt k) as [e|]; cbn.
  - apply Z.ltb_ge in He. rewrite He. cbn. rewrite Hf'. cbn.
    rewrite decide_True; [done|].
    unfold keys_unique. by rewrite set_lastUsedAt_keys.
  - rewrite Hf'. cbn. rewrite decide_True; [done|].
    unfold keys_unique. by rewrite set_lastUsedAt_keys.
Qed.

End KeyGate.

(** ** What the gates guarantee *)

Section GateClaims.
Context `{svc : AuthService}.

Lemma first_failure_through (w : World) (token : string)
    (claims : JWTPayload) (u : users.row) :
  extractTokenFromHeader (req_headers (req w) !! "Authorization")
    = Some token →
  token ≠ "" →
  verifyToken (clock w (dates w)) token = Ok claims →
  fault w (trips w) = None →
  head (filter (λ r, users.id r = userId claims) (tbl_users w)) = Some u →
  first_failure w = if users.isActive u then None else Some SubjectActive.
Proof.
  intros Hx Hne Hv Hf Hu. unfold first_failure. rewrite Hx.
  assert (truthy (Some token) = true) as -> by (apply truthy_Some; eauto).
  cbn. rewrite Hv, Hf.
  destruct (filter _ (tbl_users w)) as [|u0 rest]; [done|].
  cbn in Hu. by injection Hu as ->.
Qed.

(** C1: a request that gets through the four checks of the Session Auth
    Gate proceeds with the identity [{id, email, role}] of the verified
    token's claims attached; the stored row [u] of the subject contributes
    nothing to it, so a stored role other than the claimed one never shows
    up in the context. *)
Theorem authMiddleware_attaches_claims (w : World) (token : string)
    (claims : JWTPayload) (u : users.row) :
  extractTokenFromHeader (req_headers (req w) !! "Authorization")
    = Some token →
  token ≠ "" →
  verifyToken (clock w (dates w)) token = Ok claims →
  fault w (trips w) = None →
  head (filter (λ r, users.id r = userId claims) (tbl_users w)) = Some u →
  users.isActive u = true →
  ∃ w',
    authMiddleware w = (Ok Passed, w')
    ∧ ctx_user (ctx w')
      = Some (mkAuthUser (userId claims) (email claims) (role claims))
    ∧ au_role <$> ctx_user (ctx w') = Some (role claims)
    ∧ au_email <$> ctx_user (ctx w') = Some (email claims)
    ∧ (role_name (users.role u) ≠ role claims →
       au_role <$> ctx_user (ctx w') ≠ Some (role_name (users.role u))).
Proof.
  intros Hx Hne Hv Hf Hu Hact.
  pose proof (first_failure_through w token claims u Hx Hne Hv Hf Hu) as Hff.
  rewrite Hact in Hff.
  destruct (authMiddleware_run w)
    as (out & w' & Hrun & _ & _ & _ & _ & Hcase).
  rewrite Hff in Hcase. destruct Hcase as [-> (claims' & Hv' & Hctx)].
  rewrite Hx in Hv'. cbn in Hv'. rewrite Hv in Hv'. injection Hv' as <-.
  exists w'. rewrite Hctx. cbn. repeat split; try done.
  intros Hdiff [= E]. by apply Hdiff.
Qed.


(** A store that cannot answer the gate's lookup makes the gate answer as
    it does to a bad token. *)
Lemma authMiddleware_store_down (w : World) (e : exn) :
  truthy (extractTokenFromHeader (req_headers (req w) !! "Authorization"))
    = true →
  (∃ claims,
     verifyToken (clock w (dates w))
       (default "" (extractTokenFromHeader
                      (req_headers (req w) !! "Authorization")))
     = Ok claims) →
  fault w (trips w) = Some e →
  fst (authMiddleware w) =
    Ok (Respond (mkResponse 401 (error_body "Invalid or expired token"))).
Proof.
  intros Ht [claims Hv] Hf.
  unfold authMiddleware, verify_token, select_users. run.
  rewrite Ht. cbn. rewrite Hv. cbn. by rewrite Hf.
Qed.

End GateClaims.

Lemma authMiddleware_attaches_claims_witness :
  ∃ w',
    @authMiddleware Stub.auth Demo.w_session = (Ok Passed, w')
    ∧ ctx_user (ctx w') = Some (mkAuthUser "u1" "a@x.com" "admin")
    ∧ au_role <$> ctx_user (ctx w') = Some "admin"
    ∧ au_email <$> ctx_user (ctx w') = Some "a@x.com"
    ∧ (role_name (users.role Demo.alice) ≠ "admin" →
       au_role <$> ctx_user (ctx w')
       ≠ Some (role_name (users.role Demo.alice))).
Proof.
  apply (authMiddleware_attaches_claims (svc := Stub.auth) Demo.w_session
           "tok-1" (mkJWTPayload "u1" "a@x.com" "admin") Demo.alice);
    by vm_compute.
Defined.

(** The inactive subject of a token that still verifies is turned away. *)
Example authMiddleware_inactive_subject :
  fst (@authMiddleware Stub.auth Demo.w_inactive) =
    Ok (Respond (mkResponse 401 (error_body "User not found or inactive")))
  ∧ ctx (snd (@authMiddleware Stub.auth Demo.w_inactive))
    = ctx Demo.w_inactive.
Proof. by vm_compute. Qed.

(** C4: with a token that verifies and a store that refuses the
    connection, the Session Auth Gate answers 401 "Invalid or expired
    token", where the claim has 500 and a message of its own for internal
    failures. *)
Theorem authMiddleware_store_down_is_401 :
  fst (@authMiddleware Stub.auth Demo.w_store_down) =
    Ok (Respond (mkResponse 401 (error_body "Invalid or expired token")))
  ∧ fault Demo.w_store_down (trips Demo.w_store_down)
    = Some (Exn "connect ECONNREFUSED 10.0.0.5:5432").
Proof.
  split; [|reflexivity].
  apply (authMiddleware_store_down (svc := Stub.auth) Demo.w_store_down
           (Exn "connect ECONNREFUSED 10.0.0.5:5432")).
  - by vm_compute.
  - eexists. by vm_compute.
  - reflexivity.
Qed.

(** ** What the API key gate guarantees *)

(** C2, as stated, fails: the key [k1] expires at 1000 and is presented
    when the clock reads 1000; the gate lets the request through although
    no stored row with that key value is usable in the claim's sense. *)
Lemma apiKeyMiddleware_accepts_at_expiry :
  fst (apiKeyMiddleware Demo.w_key_at_expiry) = Ok Passed
  ∧ ¬ ∃ k, k ∈ tbl_apiKeys Demo.w_key_at_expiry
           ∧ apiKeys.key k = "zk_aa"
           ∧ usable (clock Demo.w_key_at_expiry
                       (dates Demo.w_key_at_expiry)) k.
Proof.
  split; [by vm_compute|].
  intros (k & Hk & Hkey & _ & Hexp). cbn in Hk, Hexp.
  apply elem_of_cons in Hk as [->|Hk].
  - destruct Hexp as [Hexp|(e & [= <-] & Hlt)]; [done|lia].
  - apply list_elem_of_singleton in Hk as ->. discriminate Hkey.
Qed.

(** C2, amended: with the store answering and the [unique()] constraint
    in force, the gate lets a presented key through if and only if a stored
    row with that key value is active and its expiry is unset or not before
    now; a row whose expiry is before now is answered 401 "API key has
    expired" although it is active, and an inactive row 401 "Invalid API
    key" whatever its expiry. *)
Theorem apiKeyMiddleware_accepts_iff (w : World) (apiKey : string) :
  fst (presented_apiKey w) = Ok (Some apiKey) →
  apiKey ≠ "" →
  keys_unique (tbl_apiKeys w) →
  fault w (trips w) = None →
  fault w (S (trips w)) = None →
  (fst (apiKeyMiddleware w) = Ok Passed
   ↔ ∃ k, k ∈ tbl_apiKeys w ∧ apiKeys.key k = apiKey
          ∧ usable_until (clock w (dates w)) k)
  ∧ (∀ k e, k ∈ tbl_apiKeys w → apiKeys.key k = apiKey →
       apiKeys.isActive k = true →
       apiKeys.expiresAt k = Some e → e < clock w (dates w) →
       fst (apiKeyMiddleware w) =
         Ok (Respond (mkResponse 401 (error_body "API key has expired"))))
  ∧ (∀ k, k ∈ tbl_apiKeys w → apiKeys.key k = apiKey →
       apiKeys.isActive k = false →
       fst (apiKeyMiddleware w) =
         Ok (Respond (mkResponse 401 (error_body "Invalid API key")))).
Proof.
  intros Hkey Hne Hu Hf Hf'.
  set (found := active_keys apiKey (tbl_apiKeys w)).
  (* the row the query returns is the one row with that key value *)
  assert (Hone : ∀ k k0 rest, found = k0 :: rest → k ∈ tbl_apiKeys w →
            apiKeys.key k = apiKey → k = k0).
  { intros k k0 rest Hfound Hk E.
    assert (k0 ∈ found) as Hk0 by (rewrite Hfound; apply elem_of_cons; auto).
    apply list_elem_of_filter in Hk0 as [[E0 _] Hk0].
    apply (keys_unique_inj (tbl_apiKeys w)); congruence. }
  assert (Hhead : ∀ k0 rest, found = k0 :: rest →
            k0 ∈ tbl_apiKeys w ∧ apiKeys.key k0 = apiKey
            ∧ apiKeys.isActive k0 = true).
  { intros k0 rest Hfound.
    assert (k0 ∈ found) as Hk0 by (rewrite Hfound; apply elem_of_cons; auto).
    apply list_elem_of_filter in Hk0 as [[E0 A0] Hk0]. auto. }
  split; [|split].
  - destruct found as [|k0 rest] eqn:Hfound.
    + destruct (apiKeyMiddleware_invalid w apiKey Hkey Hne Hf Hfound)
        as [-> _].
      split; [done|]. intros (k & Hk & E & Hact & _). exfalso.
      assert (k ∈ found) as Hin by (apply list_elem_of_filter; auto).
      rewrite Hfound in Hin. by apply elem_of_nil in Hin.
    + destruct (Hhead k0 rest eq_refl) as (Hk0 & E0 & A0).
      destruct (apiKeys.expiresAt k0) as [e|] eqn:He.
      * destruct (Z_lt_le_dec e (clock w (dates w))) as [Hlt|Hle].
        -- destruct (apiKeyMiddleware_expired w apiKey Hkey Hne k0 rest e
                       Hf Hfound He Hlt) as [-> _].
           split; [done|]. intros (k & Hk & E & _ & Hexp). exfalso.
           rewrite (Hone k k0 rest eq_refl Hk E) in Hexp.
           destruct Hexp as [Hexp|(e' & Hexp & Hle)]; [congruence|].
           assert (e' = e) by congruence. lia.
        -- destruct (apiKeyMiddleware_accepts w apiKey Hkey Hne k0 rest
                       Hu Hf Hf' Hfound) as [-> _]; [by rewrite He|].
           split; [|done]. intros _. exists k0. repeat split; auto.
           right. eauto.
      * destruct (apiKeyMiddleware_accepts w apiKey Hkey Hne k0 rest
                    Hu Hf Hf' Hfound) as [-> _]; [by rewrite He|].
        split; [|done]. intros _. exists k0. repeat split; auto.
  - intros k e Hk E Hact He Hlt.
    assert (k ∈ found) as Hin by (apply list_elem_of_filter; auto).
    destruct found as [|k0 rest] eqn:Hfound; [by apply elem_of_nil in Hin|].
    rewrite (Hone k k0 rest eq_refl Hk E) in He.
    by destruct (apiKeyMiddleware_expired w apiKey Hkey Hne k0 rest e
                   Hf Hfound He Hlt) as [-> _].
  - intros k Hk E Hact.
    destruct found as [|k0 rest] eqn:Hfound.
    + by destruct (apiKeyMiddleware_invalid w apiKey Hkey Hne Hf Hfound)
        as [-> _].
    + destruct (Hhead k0 rest eq_refl) as (Hk0 & E0 & A0).
      rewrite <- (Hone k k0 rest eq_refl Hk E) in A0. congruence.
Qed.

Lemma apiKeyMiddleware_accepts_iff_witness :
  (fst (apiKeyMiddleware Demo.w_key_expired) = Ok Passed
   ↔ ∃ k, k ∈ tbl_apiKeys Demo.w_key_expired ∧ apiKeys.key k = "zk_aa"
          ∧ usable_until 2000 k)
  ∧ (∀ k e, k ∈ tbl_apiKeys Demo.w_key_expired → apiKeys.key k = "zk_aa" →
       apiKeys.isActive k = true →
       apiKeys.expiresAt k = Some e → e < 2000 →
       fst (apiKeyMiddleware Demo.w_key_expired) =
         Ok (Respond (mkResponse 401 (error_body "API key has expired"))))
  ∧ (∀ k, k ∈ tbl_apiKeys Demo.w_key_expired → apiKeys.key k = "zk_aa" →
       apiKeys.isActive k = false →
       fst (apiKeyMiddleware Demo.w_key_expired) =
         Ok (Respond (mkResponse 401 (error_body "Invalid API key")))).
Proof.
  apply (apiKeyMiddleware_accepts_iff Demo.w_key_expired "zk_aa").
  - by vm_compute.
  - discriminate.
  - apply (bool_decide_unpack _). by vm_compute.
  - reflexivity.
  - reflexivity.
Defined.

(** The expired key is answered 401 at the gate. *)
Example apiKeyMiddleware_expired_key :
  fst (apiKeyMiddleware Demo.w_key_expired) =
    Ok (Respond (mkResponse 401 (error_body "API key has expired"))).
Proof. by vm_compute. Qed.

(** C6, as stated, fails: both the header and the query parameter are
    supplied, the header with the empty value, and the gate reads the key
    of the query parameter and authenticates its row. *)
Lemma presented_apiKey_empty_header :
  req_headers (req Demo.w_empty_header) !! "X-API-Key" = Some ""
  ∧ req_queries (req Demo.w_empty_header) !! "api_key" = Some "zk_bb"
  ∧ fst (presented_apiKey Demo.w_empty_header) = Ok (Some "zk_bb")
  ∧ fst (apiKeyMiddleware Demo.w_empty_header) = Ok Passed
  ∧ ctx_apiKey (ctx (snd (apiKeyMiddleware Demo.w_empty_header)))
    = Some Demo.k2.
Proof. by vm_compute. Qed.

(** C6, amended: the gate reads the key from the [X-API-Key] header
    whenever that header carries a non-empty value, whatever the query
    string holds; a header that is absent or empty leaves the choice to the
    [api_key] query parameter; and when neither yields a non-empty value the
    answer is 401 "API key is required" with the world, and so the store,
    untouched. *)
Theorem presented_apiKey_precedence (w : World) :
  (∀ h, req_headers (req w) !! "X-API-Key" = Some h → h ≠ "" →
     presented_apiKey w = (Ok (Some h), w))
  ∧ (req_headers (req w) !! "X-API-Key" = None
     ∨ req_headers (req w) !! "X-API-Key" = Some "" →
     presented_apiKey w = (Ok (req_queries (req w) !! "api_key"), w))
  ∧ ((req_headers (req w) !! "X-API-Key" = None
      ∨ req_headers (req w) !! "X-API-Key" = Some "")
     ∧ (req_queries (req w) !! "api_key" = None
        ∨ req_queries (req w) !! "api_key" = Some "") →
     apiKeyMiddleware w =
       (Ok (Respond (mkResponse 401 (error_body "API key is required"))),
        w)).
Proof.
  rewrite presented_apiKey_run.
  set (header := req_headers (req w) !! "X-API-Key").
  set (query := req_queries (req w) !! "api_key").
  assert (Hfalsy : ∀ x : option string, x = None ∨ x = Some "" →
            truthy x = false).
  { by intros x [->| ->]. }
  split; [|split].
  - intros h -> Hne. rewrite js_or_truthy; [done|].
    apply truthy_Some. eauto.
  - intros Hh. by rewrite js_or_falsy by auto.
  - intros [Hh Hq]. apply apiKeyMiddleware_missing.
    fold header query. rewrite js_or_falsy by auto. auto.
Qed.

(** ** Generating and regenerating keys *)

Lemma hex_digit_inj (n m : N) :
  (n < 16)%N → (m < 16)%N → hex_digit n = hex_digit m → n = m.
Proof.
  intros Hn Hm.
  assert (Hcases : ∀ k, (k < 16)%N →
            k ∈ [0; 1; 2; 3; 4; 5; 6; 7; 8; 9; 10; 11; 12; 13; 14; 15]%N).
  { intros k Hk.
    destruct k as [|p]; [set_solver|].
    do 4 (try destruct p as [p|p|]); try lia; set_solver. }
  pose proof (Hcases n Hn) as Hn'. pose proof (Hcases m Hm) as Hm'.
  repeat (apply elem_of_cons in Hn' as [->|Hn']);
    [..|by apply elem_of_nil in Hn'];
    repeat (apply elem_of_cons in Hm' as [->|Hm']);
    try (by apply elem_of_nil in Hm'); cbn; congruence.
Qed.

Lemma hex_digit_is_hex (n : N) : is_hex_digit (hex_digit n) = true.
Proof.
  destruct n as [|p]; [done|].
  do 4 (try destruct p as [p|p|]); done.
Qed.

Lemma hex_byte_inj (a b : byte) : hex_byte a = hex_byte b → a = b.
Proof.
  unfold hex_byte. intros [= Hhi Hlo].
  pose proof (Byte.to_N_bounded a) as Ha.
  pose proof (Byte.to_N_bounded b) as Hb.
  apply hex_digit_inj in Hhi;
    [|apply N.Div0.div_lt_upper_bound; lia
     |apply N.Div0.div_lt_upper_bound; lia].
  apply hex_digit_inj in Hlo; [|apply N.mod_lt; lia|apply N.mod_lt; lia].
  assert (Byte.to_N a = Byte.to_N b) as E.
  { rewrite (N.div_mod (Byte.to_N a) 16), (N.div_mod (Byte.to_N b) 16) by lia.
    congruence. }
  assert (Some a = Some b) as [= ->]; [|done].
  by rewrite <- (Byte.of_to_N a), <- (Byte.of_to_N b), E.
Qed.

Lemma toString_hex_inj (a b : list byte) :
  toString_hex a = toString_hex b → a = b.
Proof.
  revert b. induction a as [|x a IH]; intros [|y b]; cbn; try done.
  intros [= Hhi Hlo Hrest]. f_equal; [|by apply IH].
  apply hex_byte_inj. unfold hex_byte. congruence.
Qed.

Lemma toString_hex_cons (b : byte) (buf : list byte) :
  toString_hex (b :: buf) =
    String (hex_digit (Byte.to_N b / 16))
      (String (hex_digit (Byte.to_N b mod 16)) (toString_hex buf)).
Proof. reflexivity. Qed.

Lemma toString_hex_length (buf : list byte) :
  String.length (toString_hex buf) = (2 * length buf)%nat.
Proof.
  induction buf as [|b buf IH]; [done|].
  rewrite toString_hex_cons. cbn [String.length length]. rewrite IH. lia.
Qed.

Lemma toString_hex_digits (buf : list byte) :
  Forall (λ a, is_hex_digit a = true)
    (list_ascii_of_string (toString_hex buf)).
Proof.
  induction buf as [|b buf IH]; [constructor|].
  rewrite toString_hex_cons. cbn [list_ascii_of_string].
  repeat constructor; auto using hex_digit_is_hex.
Qed.

Lemma next_bytes_length (n : nat) (w : World) : length (next_bytes n w) = n.
Proof. unfold next_bytes. by rewrite length_map, length_seq. Qed.

Lemma generateApiKey_run (w : World) :
  generateApiKey w =
    (Ok ("zk_" +:+ toString_hex (next_bytes 32 w)),
     with_drawn (drawn w + 32)%nat w).
Proof. reflexivity. Qed.

(** Two stretches of random sources give the same bytes exactly when
    they agree position by position. *)
Lemma stretch_eq (e e' : nat → byte) (d d' n : nat) :
  map (λ i, e (d + i)%nat) (seq 0 n) = map (λ i, e' (d' + i)%nat) (seq 0 n)
  ↔ ∀ i, (i < n)%nat → e (d + i)%nat = e' (d' + i)%nat.
Proof.
  induction n as [|n IH].
  - split; [intros _ i Hi; lia|done].
  - rewrite seq_S, !map_app. cbn [map]. split.
    + intros [Hinit Hlast]%app_inj_tail i Hi.
      destruct (decide (i = n)) as [->|]; [done|].
      apply IH; [done|lia].
    + intros Hall. f_equal; [apply IH; auto with lia|].
      f_equal. apply Hall. lia.
Qed.

Lemma next_bytes_eq (n : nat) (w w2 : World) :
  next_bytes n w = next_bytes n w2
  ↔ ∀ i, (i < n)%nat →
         entropy w (drawn w + i)%nat = entropy w2 (drawn w2 + i)%nat.
Proof. apply stretch_eq. Qed.

(** A source that yields [bs] next hands out [bs]. *)
Lemma next_bytes_with_entropy (bs : list byte) (w : World) :
  next_bytes (length bs) (with_entropy bs w) = bs.
Proof.
  unfold next_bytes, with_entropy. cbn.
  apply list_eq. intros i.
  destruct (decide (i < length bs)%nat) as [Hi|Hi].
  - change (map ?f ?l) with (f <$> l).
    rewrite list_lookup_fmap.
    change (seq 0 (length bs) !! i) with (seq 0 (length bs) !! i).
    rewrite lookup_seq_lt by done. cbn.
    replace (drawn w + i - drawn w)%nat with i by lia.
    rewrite nth_lookup.
    destruct (lookup_lt_is_Some_2 bs i Hi) as [b ->]. done.
  - change (map ?f ?l) with (f <$> l).
    rewrite list_lookup_fmap, lookup_seq_ge by lia.
    by rewrite lookup_ge_None_2 by lia.
Qed.

Lemma key_cut (a b : string) : "zk_" +:+ a = "zk_" +:+ b → a = b.
Proof.
  intros Hab.
  change (String "z" (String "k" (String "_" a))
          = String "z" (String "k" (String "_" b))) in Hab.
  by injection Hab.
Qed.

(** Two runs of the generator return the same value exactly when the
    sources hand them the same thirty-two bytes. *)
Lemma generateApiKey_eq (w w2 : World) :
  fst (generateApiKey w) = fst (generateApiKey w2)
  ↔ ∀ i, (i < 32)%nat →
         entropy w (drawn w + i)%nat = entropy w2 (drawn w2 + i)%nat.
Proof.
  rewrite !generateApiKey_run. cbn [fst]. rewrite <- next_bytes_eq. split.
  - intros E. apply toString_hex_inj, key_cut. congruence.
  - by intros ->.
Qed.

(** C8: whatever the world, the generator returns the prefix ["zk_"]
    followed by the hexadecimal encoding of the thirty-two bytes (256 bits)
    that [crypto.randomBytes] hands out next, and moves the source on by
    those thirty-two bytes, so that no byte serves twice. The value has 67
    characters, the 64 after the prefix lower-case hexadecimal digits.
    Nothing but these bytes has a part in it: two runs, whatever their
    requests, stores and clocks, return the same value exactly when their
    sources yield the same thirty-two bytes, and two successive values are
    equal only when the source repeats itself. The encoding loses no bit
    and excludes no block: every block of thirty-two bytes is the random
    part of the value for a source that yields it. *)
Theorem generateApiKey_shape (w w2 : World) :
  fst (generateApiKey w) =
    Ok ("zk_" +:+ toString_hex
                    (map (λ i, entropy w (drawn w + i)%nat) (seq 0 32)))
  ∧ snd (generateApiKey w) = with_drawn (drawn w + 32)%nat w
  ∧ (128 ≤ 8 * length (map (λ i, entropy w (drawn w + i)%nat)
                         (seq 0 32)))%nat
  ∧ (∀ key, fst (generateApiKey w) = Ok key →
       String.length key = 67%nat
       ∧ String.prefix "zk_" key = true
       ∧ Forall (λ a, is_hex_digit a = true)
           (list_ascii_of_string (String.substring 3 64 key)))
  ∧ (fst (generateApiKey w) = fst (generateApiKey w2)
     ↔ ∀ i, (i < 32)%nat →
            entropy w (drawn w + i)%nat = entropy w2 (drawn w2 + i)%nat)
  ∧ (fst (generateApiKey (snd (generateApiKey w))) = fst (generateApiKey w)
     ↔ ∀ i, (i < 32)%nat →
            entropy w (drawn w + 32 + i)%nat = entropy w (drawn w + i)%nat)
  ∧ (∀ bs, length bs = 32%nat →
       fst (generateApiKey (with_entropy bs w))
       = Ok ("zk_" +:+ toString_hex bs))
  ∧ (∀ bs bs', length bs = 32%nat → length bs' = 32%nat →
       fst (generateApiKey (with_entropy bs w))
       = fst (generateApiKey (with_entropy bs' w)) →
       bs = bs')
  ∧ tbl_apiKeys (snd (generateApiKey w)) = tbl_apiKeys w
  ∧ tbl_users (snd (generateApiKey w)) = tbl_users w
  ∧ ctx (snd (generateApiKey w)) = ctx w.
Proof.
  assert (Hblock : ∀ bs, length bs = 32%nat →
            fst (generateApiKey (with_entropy bs w))
            = Ok ("zk_" +:+ toString_hex bs)).
  { intros bs Hlen. rewrite generateApiKey_run. cbn [fst].
    by rewrite <- Hlen, next_bytes_with_entropy. }
  split; [reflexivity|]. split; [reflexivity|].
  split; [rewrite length_map, length_seq; lia|].
  split; [|split; [apply generateApiKey_eq|split; [|split; [done|split]]]].
  - rewrite generateApiKey_run. cbn [fst].
    pose proof (toString_hex_length (next_bytes 32 w)) as Hlen.
    rewrite next_bytes_length in Hlen.
    pose proof (toString_hex_digits (next_bytes 32 w)) as Hdig.
    set (h := toString_hex (next_bytes 32 w)) in *.
    intros key Hkey. assert (key = "zk_" +:+ h) as -> by congruence.
    change ("zk_" +:+ h) with (String "z" (String "k" (String "_" h))).
    cbn [String.length String.prefix String.substring].
    split; [by rewrite Hlen|]. split.
    + by destruct h.
    + replace (String.substring 0 64 h) with h; [done|].
      change 64%nat with (2 * 32)%nat. rewrite <- Hlen.
      clear. induction h as [|c h IH]; [done|]. cbn. by rewrite <- IH.
  - rewrite generateApiKey_eq. cbn [snd generateApiKey].
    rewrite generateApiKey_run. cbn. done.
  - intros bs bs' Hlen Hlen'. rewrite !Hblock by done.
    intros E. apply toString_hex_inj, key_cut. congruence.
  - by rewrite generateApiKey_run.
Qed.

(** Two keys generated one after the other from a source that repeats the
    byte [2a] are the same key. *)
Example generateApiKey_repeating_source :
  fst (generateApiKey (snd (generateApiKey Demo.w_regenerate)))
  = fst (generateApiKey Demo.w_regenerate).
Proof. by vm_compute. Qed.

(** *** Regeneration *)

Lemma fmap_off {A} (P : A → Prop) `{!∀ x, Decision (P x)} (f : A → A)
    (l : list A) :
  (∀ x, x ∈ l → ¬ P x) → (λ x, if decide (P x) then f x else x) <$> l = l.
Proof.
  induction l as [|x l IH]; intros Hoff; [done|]. cbn.
  rewrite decide_False by (apply Hoff, elem_of_cons; auto).
  f_equal. apply IH. intros y Hy. apply Hoff, elem_of_cons; auto.
Qed.

Lemma filter_off {A} (P : A → Prop) `{!∀ x, Decision (P x)} (l : list A) :
  (∀ x, x ∈ l → ¬ P x) → filter P l = [].
Proof.
  induction l as [|x l IH]; intros Hoff; [done|].
  rewrite filter_cons, decide_False by (apply Hoff, elem_of_cons; auto).
  apply IH. intros y Hy. apply Hoff, elem_of_cons; auto.
Qed.

(** Under the primary key an id names one row. *)
Lemma ids_unique_inj (t : list apiKeys.row) (k k' : apiKeys.row) :
  NoDup (apiKeys.id <$> t) → k ∈ t → k' ∈ t →
  apiKeys.id k = apiKeys.id k' → k = k'.
Proof.
  induction t as [|x t IH]; intros Hnd Hk Hk' E.
  - by apply elem_of_nil in Hk.
  - rewrite fmap_cons in Hnd. apply NoDup_cons in Hnd as [Hx Hnd].
    apply elem_of_cons in Hk as [->|Hk];
      apply elem_of_cons in Hk' as [->|Hk']; auto.
    + exfalso. apply Hx. rewrite E. by apply list_elem_of_fmap_2.
    + exfalso. apply Hx. rewrite <- E. by apply list_elem_of_fmap_2.
Qed.

Section Regenerate.
Variables (old : apiKeys.row) (fresh : string) (now : Z).



End Regenerate.



(** The store of that request is the one a first regeneration of [k1]
    leaves behind. *)
Example regenerate_twice :
  tbl_apiKeys (snd (regenerate Demo.w_regenerate))
  = tbl_apiKeys Replay.w_regenerate_again.
Proof. by vm_compute. Qed.



(** The regenerated key of the example, in full. *)
Example regenerate_example_key :
  apiKeys.key <$> tbl_apiKeys (snd (regenerate Demo.w_regenerate))
  = ["zk_2a2a2a2a2a2a2a2a2a2a2a2a2a2a2a2a2a2a2a2a2a2a2a2a2a2a2a2a2a2a2a2a";
     "zk_bb"].
Proof. by vm_compute. Qed.

(** After the regeneration of the example, the old value ["zk_aa"] is
    answered 401 at the API key gate. *)
Example regenerate_then_old_key_rejected :
  fst (apiKeyMiddleware
         (with_req Demo.key_request (snd (regenerate Demo.w_regenerate))))
  = Ok (Respond (mkResponse 401 (error_body "Invalid API key"))).
Proof. by vm_compute. Qed.

(** ** The register, login and me routes *)

Lemma error_body_without_password (st : Z) (msg : string) :
  without_password (mkResponse st (error_body msg)).
Proof. by split. Qed.

Lemma userWithoutPassword_lookup (u : users.row) :
  userWithoutPassword u !! "password" = None
  ∧ userWithoutPassword u !! "id" = Some (JStr (users.id u))
  ∧ userWithoutPassword u !! "email" = Some (JStr (users.email u))
  ∧ userWithoutPassword u !! "role" = Some (JStr (role_name (users.role u))).
Proof.
  unfold userWithoutPassword. split; [apply lookup_delete_eq|].
  rewrite !lookup_delete_ne by done. by vm_compute.
Qed.

Lemma user_body_without_password (st : Z) (b : jsobj) (u : users.row) :
  b !! "password" = None →
  b !! "user" = Some (JObj (userWithoutPassword u)) →
  without_password (mkResponse st b) ∧ returns_user (mkResponse st b) u.
Proof.
  intros Hp Hu. split; [|done]. split; [done|]. cbn. rewrite Hu.
  intros o [= <-]. apply userWithoutPassword_lookup.
Qed.

Section Routes.
Context `{svc : AuthService}.
Variable z_email : string → bool.
Variable z_issues : string → jsobj → jsval.

Lemma me_handler_answers (w : World) :
  answers 200 (tbl_users w) (me_handler w).
Proof.
  unfold answers, me_handler, select_users. run.
  destruct (ctx_user (ctx w)) as [u|]; cbn; [|refused].
  destruct (fault w (trips w)); cbn; [refused|].
  destruct (filter _ (tbl_users w)) as [|found rest] eqn:Hsel; cbn;
    [refused|].
  eexists. split; [reflexivity|].
  assert (found ∈ tbl_users w) as Hin.
  { assert (found ∈ found :: rest) as Hin by (apply elem_of_cons; auto).
    rewrite <- Hsel in Hin. by apply list_elem_of_filter in Hin as [_ ?]. }
  destruct (user_body_without_password 200
              {[ "user" := JObj (userWithoutPassword found) ]} found)
    as [Hw Hr]; [done..|].
  split; [done|]. intros _. by exists found.
Qed.

Lemma me_answers (w : World) : answers 200 (tbl_users w) (me w).
Proof.
  destruct (authMiddleware_run w)
    as (out & w1 & Hrun & _ & _ & Htbl & _ & Hcase).
  unfold me, route. run. rewrite Hrun.
  destruct (first_failure w) as [c|].
  - destruct Hcase as [_ ->]. cbn.
    eexists. split; [reflexivity|].
    split; [apply error_body_without_password|]. cbn. intros; discriminate.
  - destruct Hcase as [-> _]. rewrite <- Htbl. apply me_handler_answers.
Qed.

Lemma login_answers (w : World) :
  answers 200 (tbl_users w) (login z_email z_issues w).
Proof.
  unfold answers, login, validation_failed, select_users, update_users,
    generate_token.
  run.
  destruct (loginSchema _ _) as [data|]; cbn; [|refused].
  destruct (fault w (trips w)); cbn; [refused|].
  destruct (filter _ (tbl_users w)) as [|user rest] eqn:Hsel; cbn;
    [refused|].
  destruct (users.isActive user); cbn; [|refused].
  destruct (comparePassword _ _) as [[|]|]; cbn; [|refused|refused].
  destruct (fault w (S (trips w))); cbn; [refused|].
  eexists. split; [reflexivity|].
  assert (user ∈ tbl_users w) as Hin.
  { assert (user ∈ user :: rest) as Hin by (apply elem_of_cons; auto).
    rewrite <- Hsel in Hin. by apply list_elem_of_filter in Hin as [_ ?]. }
  match goal with
  | |- without_password (mkResponse ?st ?b) ∧ _ =>
      destruct (user_body_without_password st b user) as [Hw Hr]; [done..|]
  end.
  split; [done|]. intros _. by exists user.
Qed.

(** A store or hashing failure inside the login route is logged and
    answered 500 with a fixed message. *)
Lemma login_internal_failure (w : World) (data : LoginInput) (e : exn) :
  loginSchema z_email (req_json (req w)) = Some data →
  fault w (trips w) = Some e
  ∨ (fault w (trips w) = None
     ∧ ∃ user rest,
         filter (λ u, users.email u = li_email data) (tbl_users w)
           = user :: rest
         ∧ users.isActive user = true
         ∧ comparePassword (li_password data) (users.password user)
           = Throw e) →
  fst (login z_email z_issues w) =
    Ok (Respond (mkResponse 500 (error_body "Internal server error")))
  ∧ last (trace (snd (login z_email z_issues w)))
    = Some (EvConsoleError "Login error:" e).
Proof.
  intros Hdata Hfail. unfold login, select_users. run. rewrite Hdata. cbn.
  destruct Hfail as [Hf|(Hf & user & rest & Hsel & Hact & Hcmp)].
  - rewrite Hf. cbn. split; [done|]. by rewrite !last_snoc.
  - rewrite Hf. cbn. rewrite Hsel. cbn. rewrite Hact. cbn. rewrite Hcmp. cbn.
    split; [done|]. by rewrite !last_snoc.
Qed.

(** Registration either leaves the users table alone or appends one row,
    and that row is a customer. *)
Lemma register_answers (w : World) :
  answers 201 (tbl_users (snd (register z_email z_issues w))) (register z_email z_issues w)
  ∧ (tbl_users (snd (register z_email z_issues w)) = tbl_users w
     ∨ ∃ u, tbl_users (snd (register z_email z_issues w)) = (tbl_users w ++ [u])%list
            ∧ users.role u = customer)
  ∧ (∀ r, fst (register z_email z_issues w) = Ok (Respond r) → status r = 201 →
       ∃ u, tbl_users (snd (register z_email z_issues w)) = (tbl_users w ++ [u])%list
            ∧ users.role u = customer
            ∧ returns_user r u).
Proof.
  unfold answers, register, validation_failed, select_users, hash_password,
    insert_users, generate_token.
  run.
  destruct (registerSchema _ _) as [data|]; cbn;
    [|split; [refused|split; [by left|intros r [= <-]; discriminate]]].
  destruct (fault w (trips w)); cbn;
    [split; [refused|split; [by left|intros r [= <-]; discriminate]]|].
  destruct (length (take 1 _)); cbn;
    [|split; [refused|split; [by left|intros r [= <-]; discriminate]]].
  destruct (hashPassword _ _) as [hashed|]; cbn;
    [|split; [refused|split; [by left|intros r [= <-]; discriminate]]].
  destruct (fault w (S (trips w))); cbn;
    [split; [refused|split; [by left|intros r [= <-]; discriminate]]|].
  destruct (decide _); cbn;
    [split; [refused|split; [by left|intros r [= <-]; discriminate]]|].
  match goal with
  | |- context [(tbl_users w ++ [?u])%list] => set (user := u)
  end.
  match goal with
  | |- (∃ r, Ok (Respond (mkResponse ?st ?b)) = _ ∧ _) ∧ _ =>
      destruct (user_body_without_password st b user) as [Hw Hr]; [done..|]
  end.
  split; [|split].
  - eexists. split; [reflexivity|]. split; [done|]. intros _.
    exists user. split; [|done]. apply elem_of_app. right.
    by apply list_elem_of_singleton.
  - right. by exists user.
  - intros r [= <-] _. by exists user.
Qed.

(** *** The answers do not depend on the stored hashes *)

Lemma filter_rehash (f : users.row → string) (P : users.row → Prop)
    `{!∀ u, Decision (P u)} (l : list users.row) :
  (∀ u h, P (set_password h u) ↔ P u) →
  filter P ((λ u, set_password (f u) u) <$> l)
  = (λ u, set_password (f u) u) <$> filter P l.
Proof.
  intros HP. induction l as [|u l IH]; [done|].
  rewrite fmap_cons, !filter_cons.
  destruct (decide (P u)) as [Hu|Hu].
  - rewrite decide_True by (by apply HP). by rewrite fmap_cons, IH.
  - rewrite decide_False by (by rewrite HP). done.
Qed.

Lemma userWithoutPassword_set_password (h : string) (u : users.row) :
  userWithoutPassword (set_password h u) = userWithoutPassword u.
Proof.
  unfold userWithoutPassword, users.to_obj. cbn.
  rewrite !(delete_insert_ne _ "password" "id") by done.
  rewrite !(delete_insert_ne _ "password" "email") by done.
  by rewrite !delete_insert_eq.
Qed.

(** The session gate reads the id and the active flag of the rows, not
    their password. *)
Lemma authMiddleware_rehash (f : users.row → string) (w : World) :
  authMiddleware (rehash f w)
  = (fst (authMiddleware w), rehash f (snd (authMiddleware w))).
Proof.
  unfold authMiddleware, verify_token, select_users, rehash. run.
  destruct (truthy _); cbn; [|done].
  destruct (verifyToken _ _) as [payload|]; cbn; [|done].
  destruct (fault w (trips w)); cbn; [done|].
  rewrite filter_rehash by done.
  destruct (filter _ (tbl_users w)) as [|u rest]; cbn; [done|].
  by destruct (users.isActive u).
Qed.

Lemma me_handler_rehash (f : users.row → string) (w : World) :
  fst (me_handler (rehash f w)) = fst (me_handler w).
Proof.
  unfold me_handler, select_users, rehash. run.
  destruct (ctx_user (ctx w)); cbn; [|done].
  destruct (fault w (trips w)); cbn; [done|].
  rewrite filter_rehash by done.
  destruct (filter _ (tbl_users w)) as [|u rest]; cbn; [done|].
  by rewrite userWithoutPassword_set_password.
Qed.

Lemma me_rehash (f : users.row → string) (w : World) :
  fst (me (rehash f w)) = fst (me w).
Proof.
  unfold me, route. run. rewrite authMiddleware_rehash.
  destruct (authMiddleware w) as [[[r|]|e] w1]; cbn; [done| |done].
  apply me_handler_rehash.
Qed.

Lemma login_rehash (f : users.row → string) (w : World) :
  token_ignores_password svc →
  (∀ data u, loginSchema z_email (req_json (req w)) = Some data →
     u ∈ tbl_users w → users.email u = li_email data →
     same_verdict (comparePassword (li_password data) (f u))
       (comparePassword (li_password data) (users.password u))) →
  fst (login z_email z_issues (rehash f w))
  = fst (login z_email z_issues w).
Proof.
  intros Htok Hcmp.
  unfold login, validation_failed, select_users, update_users,
    generate_token, rehash.
  run.
  destruct (loginSchema _ _) as [data|] eqn:Hdata; cbn; [|done].
  destruct (fault w (trips w)); cbn; [done|].
  rewrite filter_rehash by done.
  destruct (filter _ (tbl_users w)) as [|u rest] eqn:Hsel; cbn; [done|].
  destruct (users.isActive u); cbn; [|done].
  assert (u ∈ tbl_users w ∧ users.email u = li_email data) as [Hin Hmail].
  { assert (u ∈ u :: rest) as Hin by (apply elem_of_cons; auto).
    rewrite <- Hsel in Hin. by apply list_elem_of_filter in Hin as [? ?]. }
  specialize (Hcmp data u eq_refl Hin Hmail).
  destruct (comparePassword _ (f u)) as [[|]|];
    destruct (comparePassword _ (users.password u)) as [[|]|];
    cbn in Hcmp |- *; try done.
  destruct (fault w (S (trips w))); cbn; [done|].
  by rewrite Htok, userWithoutPassword_set_password.
Qed.

Lemma register_with_hasher (hash : list byte → string → Res string)
    (w : World) :
  token_ignores_password svc →
  (∀ salt p, same_kind (hash salt p) (hashPassword salt p)) →
  fst (@register (with_hasher svc hash) z_email z_issues w)
  = fst (register z_email z_issues w).
Proof.
  intros Htok Hhash.
  unfold register, validation_failed, select_users, hash_password,
    insert_users, generate_token.
  run.
  destruct (registerSchema _ _) as [data|]; cbn; [|done].
  destruct (fault w (trips w)); cbn; [done|].
  destruct (length _); cbn; [|done].
  specialize (Hhash (next_bytes 16 w) (ri_password data)).
  destruct (hash _ _) as [h'|]; destruct (hashPassword _ _) as [h|];
    cbn in Hhash |- *; try done.
  destruct (fault w (S (trips w))); cbn; [done|].
  destruct (decide _); cbn; [done|].
  match goal with
  | |- context [generateToken ?now (users.mk ?i ?e h ?a ?b ?c ?r ?ac ?v ?l
                                      ?ca ?ua)] =>
      rewrite <- (Htok now (users.mk i e h a b c r ac v l ca ua) h');
      rewrite <- (userWithoutPassword_set_password h'
                    (users.mk i e h a b c r ac v l ca ua))
  end.
  done.
Qed.

End Routes.

Section RouteClaims.
Context `{svc : AuthService}.
Variable z_email : string → bool.
Variable z_issues : string → jsobj → jsval.

(** C9: register, login and me always answer with a response, and none of
    their responses has a [password] field, neither in the body nor in the
    user object; on success (201 for register, 200 for login and me) the
    user object is a stored row with its [password] column deleted, the
    other columns kept. Nor does the stored hash come out another way, the
    token not being made from it: the answer of the me route is the same
    whatever the password column of every stored row holds; so is the
    answer of the login route, as long as [comparePassword] gives the
    password of the request the same verdict; and the answer of the
    register route is the same whatever string the hasher returns. *)
Theorem responses_without_password (w : World) :
  token_ignores_password svc →
  answers 201 (tbl_users (snd (register z_email z_issues w)))
    (register z_email z_issues w)
  ∧ answers 200 (tbl_users w) (login z_email z_issues w)
  ∧ answers 200 (tbl_users w) (me w)
  ∧ (∀ r u, returns_user r u →
       ∃ o, body r !! "user" = Some (JObj o)
            ∧ o !! "password" = None
            ∧ o !! "id" = Some (JStr (users.id u))
            ∧ o !! "email" = Some (JStr (users.email u)))
  ∧ (∀ f, fst (me (rehash f w)) = fst (me w))
  ∧ (∀ f,
       (∀ data u, loginSchema z_email (req_json (req w)) = Some data →
          u ∈ tbl_users w → users.email u = li_email data →
          same_verdict (comparePassword (li_password data) (f u))
            (comparePassword (li_password data) (users.password u))) →
       fst (login z_email z_issues (rehash f w))
       = fst (login z_email z_issues w))
  ∧ (∀ hash,
       (∀ salt p, same_kind (hash salt p) (hashPassword salt p)) →
       fst (@register (with_hasher svc hash) z_email z_issues w)
       = fst (register z_email z_issues w)).
Proof.
  intros Htok.
  split; [apply register_answers|].
  split; [apply login_answers|].
  split; [apply me_answers|].
  split.
  { intros r u Hr. eexists. split; [exact Hr|].
    destruct (userWithoutPassword_lookup u) as (Hp & Hi & He & _).
    by repeat split. }
  split; [intros f; apply me_rehash|].
  split; [intros f; by apply login_rehash|].
  intros hash. by apply register_with_hasher.
Qed.

(** The schema of the register route never looks at a [role] key. *)
Lemma registerSchema_ignores_role (b : jsobj) (v : jsval) :
  registerSchema z_email (<["role" := v]> b) = registerSchema z_email b.
Proof. unfold registerSchema. by rewrite !lookup_insert_ne. Qed.

(** C10: a call of the register route leaves the users table as it was or
    appends exactly one row, and that row has the role [customer]; a 201
    answer always comes with such a row; and a [role] key in the request
    body changes nothing of what the schema hands to the handler. *)
Theorem register_creates_customer (w : World) :
  (tbl_users (snd (register z_email z_issues w)) = tbl_users w
   ∨ ∃ u, tbl_users (snd (register z_email z_issues w)) = (tbl_users w ++ [u])%list
          ∧ users.role u = customer)
  ∧ (∀ r, fst (register z_email z_issues w) = Ok (Respond r) → status r = 201 →
       ∃ u, tbl_users (snd (register z_email z_issues w)) = (tbl_users w ++ [u])%list
            ∧ users.role u = customer
            ∧ returns_user r u)
  ∧ (∀ b v, registerSchema z_email (<["role" := v]> b)
            = registerSchema z_email b).
Proof.
  destruct (register_answers z_email z_issues w) as (_ & Htbl & Hok).
  split; [done|]. split; [done|]. apply registerSchema_ignores_role.
Qed.

End RouteClaims.

(** With other hashes in the store the three routes answer the same: the
    me route for [alice], the login route for a wrong password, and the
    register route with a hasher that returns another string. *)
Lemma responses_without_password_witness :
  fst (@me Stub.auth (rehash (λ _, "$2$another") Demo.w_session))
  = fst (@me Stub.auth Demo.w_session)
  ∧ fst (@login Stub.auth Stub.z_email Stub.z_issues
           (rehash (λ _, "$2$another") Scenario.w_wrong_password))
    = fst (@login Stub.auth Stub.z_email Stub.z_issues
             Scenario.w_wrong_password)
  ∧ fst (@register (with_hasher Stub.auth (λ _ p, Ok ("$3$" +:+ p)))
           Stub.z_email Stub.z_issues Demo.w_register)
    = fst (@register Stub.auth Stub.z_email Stub.z_issues Demo.w_register)
  ∧ answers 200 (tbl_users Demo.w_login)
      (@login Stub.auth Stub.z_email Stub.z_issues Demo.w_login).
Proof.
  assert (token_ignores_password Stub.auth) as Htok by done.
  destruct (responses_without_password (svc := Stub.auth) Stub.z_email
              Stub.z_issues Demo.w_session Htok)
    as (_ & _ & _ & _ & Hme & _ & _).
  destruct (responses_without_password (svc := Stub.auth) Stub.z_email
              Stub.z_issues Scenario.w_wrong_password Htok)
    as (_ & _ & _ & _ & _ & Hlogin & _).
  destruct (responses_without_password (svc := Stub.auth) Stub.z_email
              Stub.z_issues Demo.w_register Htok)
    as (_ & _ & _ & _ & _ & _ & Hregister).
  destruct (responses_without_password (svc := Stub.auth) Stub.z_email
              Stub.z_issues Demo.w_login Htok)
    as (_ & Hanswers & _).
  split; [apply Hme|]. split; [|split; [|exact Hanswers]].
  - apply Hlogin. intros data u Hdata Hu _.
    apply list_elem_of_singleton in Hu as ->.
    assert (data = mkLoginInput "a@x.com" "letmein") as ->
      by (vm_compute in Hdata; congruence).
    by vm_compute.
  - apply Hregister. intros salt p. done.
Defined.

(** The three answers of the example are not the refusals only: with the
    hashes replaced the me route still returns the row of [alice], and the
    registration is still answered 201. *)
Example responses_with_other_hashes :
  (∃ r, fst (@me Stub.auth (rehash (λ _, "$2$another") Demo.w_session))
        = Ok (Respond r)
        ∧ status r = 200 ∧ returns_user r Demo.alice)
  ∧ (∃ r, fst (@register (with_hasher Stub.auth (λ _ p, Ok ("$3$" +:+ p)))
                 Stub.z_email Stub.z_issues Demo.w_register)
          = Ok (Respond r)
          ∧ status r = 201).
Proof. split; eexists; by vm_compute. Qed.

(** A service that puts the stored hash into the token does show the hash
    in the answer of the login route, and is not one the statement is
    about. *)
Example token_with_hash_leaks :
  let leaky :=
    {| extractTokenFromHeader := @extractTokenFromHeader Stub.auth;
       verifyToken := @verifyToken Stub.auth;
       generateToken := λ _ u, users.password u;
       hashPassword := @hashPassword Stub.auth;
       comparePassword := @comparePassword Stub.auth |} in
  ¬ token_ignores_password leaky
  ∧ ∃ r, fst (@login leaky Stub.z_email Stub.z_issues Demo.w_login)
         = Ok (Respond r)
         ∧ body r !! "token" = Some (JStr (users.password Demo.alice)).
Proof.
  split.
  - intros H. specialize (H 0 Demo.alice "x"). discriminate H.
  - eexists. by vm_compute.
Qed.

(** A body that asks for the admin role is registered as a customer. *)
Example register_with_admin_role :
  status <$> (match fst (@register Stub.auth Stub.z_email Stub.z_issues Demo.w_register)
              with Ok (Respond r) => Some r | _ => None end) = Some 201
  ∧ (λ u, (users.email u, users.role u))
      <$> tbl_users (snd (@register Stub.auth Stub.z_email Stub.z_issues Demo.w_register))
    = [("a@x.com", customer); ("b@x.com", customer)].
Proof. by vm_compute. Qed.

(** The login of [alice] returns her row without the password. *)
Example login_returns_user :
  ∃ r, fst (@login Stub.auth Stub.z_email Stub.z_issues Demo.w_login) = Ok (Respond r)
       ∧ status r = 200
       ∧ returns_user r Demo.alice
       ∧ body r !! "token" = Some (JStr "tok-u1").
Proof. eexists. by vm_compute. Qed.

(** The me route behind the gate: the identity without a password field,
    and 401 once the identity is deactivated. *)
Example me_returns_user :
  (∃ r, fst (@me Stub.auth Demo.w_session) = Ok (Respond r)
        ∧ status r = 200 ∧ returns_user r Demo.alice)
  ∧ (∃ r, fst (@me Stub.auth Demo.w_inactive) = Ok (Respond r)
          ∧ status r = 401).
Proof. split; eexists; by vm_compute. Qed.

(** * Further properties *)

(** ** The gates in front of the routers *)

Section Guards.
Context `{svc : AuthService}.

(** The Session Auth Gate draws no random bytes and writes no table. *)
Lemma authMiddleware_frame (w : World) :
  drawn (snd (authMiddleware w)) = drawn w
  ∧ tbl_users (snd (authMiddleware w)) = tbl_users w
  ∧ tbl_apiKeys (snd (authMiddleware w)) = tbl_apiKeys w
  ∧ req (snd (authMiddleware w)) = req w.
Proof.
  unfold authMiddleware, verify_token, select_users. run.
  destruct (truthy _); cbn; [|done].
  destruct (verifyToken _ _); cbn; [|done].
  destruct (fault w (trips w)); cbn; [done|].
  by destruct (_ || _).
Qed.

(** X1: behind [authMiddleware] and [requireStaff] a handler runs exactly
    when the request fails none of the four checks and the role of its
    claims is admin or staff, and it then runs on the world the gate left,
    with the identity of the claims attached. A request that fails a check
    is answered 401, one with another role 403, and in both cases the
    handler does not run and the tables are as they were. *)
Theorem staff_route_guard (handler : M outcome) (w : World) :
  ∃ w1,
    snd (authMiddleware w) = w1
    ∧ tbl_users w1 = tbl_users w
    ∧ tbl_apiKeys w1 = tbl_apiKeys w
    ∧ match first_failure w with
      | Some c =>
          staff_route handler w =
            (Ok (Respond (mkResponse 401
                   (error_body (rejection_message w c)))), w1)
      | None =>
          ∃ claims,
            verifyToken (clock w (dates w))
              (default "" (extractTokenFromHeader
                             (req_headers (req w) !! "Authorization")))
            = Ok claims
            ∧ ctx_user (ctx w1)
              = Some (mkAuthUser (userId claims) (email claims)
                        (role claims))
            ∧ (role claims ∈ ["admin"; "staff"] →
               staff_route handler w = handler w1)
            ∧ (role claims ∉ ["admin"; "staff"] →
               staff_route handler w =
                 (Ok (Respond (mkResponse 403
                        (error_body "Insufficient permissions"))), w1))
      end.
Proof.
  destruct (authMiddleware_frame w) as (_ & Hu & Hk & _).
  destruct (authMiddleware_run w)
    as (out & w1 & Hrun & _ & _ & _ & _ & Hcase).
  exists w1. rewrite Hrun in Hu, Hk |- *. cbn in Hu, Hk |- *.
  split; [done|]. split; [done|]. split; [done|].
  unfold staff_route, route. run. rewrite Hrun. cbn.
  destruct (first_failure w) as [c|].
  - by destruct Hcase as [_ ->].
  - destruct Hcase as [-> (claims & Hv & Hctx)].
    exists claims. split; [done|]. rewrite Hctx. cbn. split; [done|].
    pose proof (requireRole_inside ["admin"; "staff"] w1
                  (mkAuthUser (userId claims) (email claims) (role claims)))
      as Hin.
    pose proof (requireRole_outside ["admin"; "staff"] w1
                  (mkAuthUser (userId claims) (email claims) (role claims)))
      as Hout.
    rewrite Hctx in Hin, Hout. cbn in Hin, Hout.
    split; intros Hr.
    + unfold requireStaff. by rewrite Hin.
    + unfold requireStaff. by rewrite Hout.
Qed.

End Guards.

(** ** The API key gate: what it writes and what it leaves *)

Lemma set_lastUsedAt_ids (t : list apiKeys.row) (now : Z)
    (P : apiKeys.row → Prop) `{!∀ k, Decision (P k)} :
  apiKeys.id <$> ((λ k, if decide (P k) then apiKeys.set_lastUsedAt now k
                        else k) <$> t)
  = apiKeys.id <$> t.
Proof.
  induction t as [|k t IH]; [done|]. cbn. rewrite IH.
  by destruct (decide (P k)).
Qed.

(** X2: the API key gate either lets the request through or answers 401 or
    500, and whenever it does not let it through it has written nothing and
    attached nothing: both tables and the context are as they were. The
    users table is never written. *)
Theorem apiKeyMiddleware_rejects_cleanly (w : World) :
  ∃ out,
    fst (apiKeyMiddleware w) = Ok out
    ∧ tbl_users (snd (apiKeyMiddleware w)) = tbl_users w
    ∧ (out = Passed
       ∨ ∃ r, out = Respond r
              ∧ (status r = 401 ∨ status r = 500)
              ∧ tbl_apiKeys (snd (apiKeyMiddleware w)) = tbl_apiKeys w
              ∧ ctx (snd (apiKeyMiddleware w)) = ctx w).
Proof.
  unfold apiKeyMiddleware, presented_apiKey, select_apiKeys, update_apiKeys.
  run.
  destruct (truthy _); cbn; [|eexists; repeat split; eauto 10].
  destruct (fault w (trips w)); cbn; [eexists; repeat split; eauto 10|].
  destruct (filter _ (tbl_apiKeys w)) as [|k rest]; cbn;
    [eexists; repeat split; eauto 10|].
  destruct (apiKeys.expiresAt k) as [e|]; cbn.
  - destruct (e <? _); cbn; [eexists; repeat split; eauto 10|].
    destruct (fault w (S (trips w))); cbn; [eexists; repeat split; eauto 10|].
    destruct (decide _); cbn; eexists; repeat split; eauto 10.
  - destruct (fault w (S (trips w))); cbn; [eexists; repeat split; eauto 10|].
    destruct (decide _); cbn; eexists; repeat split; eauto 10.
Qed.

Section KeyTouch.
Variable w : World.
Variable apiKey : string.
Variable k : apiKeys.row.
Variable rest : list apiKeys.row.
Hypothesis Hkey : fst (presented_apiKey w) = Ok (Some apiKey).
Hypothesis Hne : apiKey ≠ "".
Hypothesis Hfound : active_keys apiKey (tbl_apiKeys w) = k :: rest.
Hypothesis Hselect : fault w (trips w) = None.

(** The run of the gate up to its write, for a key that is found and has
    not expired. *)
Lemma apiKeyMiddleware_touch_run :
  match apiKeys.expiresAt k with
  | None => True
  | Some e => clock w (dates w) ≤ e
  end →
  let t := clock w (dates w + (match apiKeys.expiresAt k with
                                | Some _ => 1 | None => 0 end))%nat in
  let touched :=
    (λ r, if decide (apiKeys.id r = apiKeys.id k)
          then apiKeys.set_lastUsedAt t r else r) <$> tbl_apiKeys w in
  match fault w (S (trips w)) with
  | Some e =>
      fst (apiKeyMiddleware w) =
        Ok (Respond (mkResponse 500 (error_body "Authentication failed")))
      ∧ last (trace (snd (apiKeyMiddleware w)))
        = Some (EvConsoleError "API key middleware error:" e)
  | None =>
      keys_unique (tbl_apiKeys w) →
      fst (apiKeyMiddleware w) = Ok Passed
      ∧ tbl_apiKeys (snd (apiKeyMiddleware w)) = touched
      ∧ ctx (snd (apiKeyMiddleware w)) = mkCtx (ctx_user (ctx w)) (Some k)
  end.
Proof.
  destruct (apiKey_truthy w apiKey Hkey Hne) as [Hor Ht]. intros He.
  unfold apiKeyMiddleware, presented_apiKey, select_apiKeys, update_apiKeys.
  run. rewrite Hor, Ht. cbn. rewrite Hselect. cbn.
  fold (active_keys apiKey (tbl_apiKeys w)). rewrite Hfound.
  destruct (apiKeys.expiresAt k) as [e|]; cbn.
  - apply Z.ltb_ge in He. rewrite He. cbn.
    destruct (fault w (S (trips w))); cbn.
    + split; [done|]. by rewrite !last_snoc.
    + intros Hu. rewrite decide_True; [by rewrite Nat.add_1_r|].
      unfold keys_unique. by rewrite set_lastUsedAt_keys.
  - destruct (fault w (S (trips w))); cbn.
    + split; [done|]. by rewrite !last_snoc.
    + intros Hu. rewrite decide_True; [by rewrite Nat.add_0_r|].
      unfold keys_unique. by rewrite set_lastUsedAt_keys.
Qed.

End KeyTouch.

(** X3: when the gate lets a key through it writes one thing: the time of
    the use into [lastUsedAt] of the rows with the id of the key found,
    which under the primary key is that row alone; every other row and the
    users table are as they were. The time written is the reading of the
    clock after the expiry check. The record attached to the context is the
    row as it was read, with its previous [lastUsedAt]. *)
Theorem apiKeyMiddleware_touches_one_row (w : World) (apiKey : string)
    (k : apiKeys.row) (rest : list apiKeys.row) :
  fst (presented_apiKey w) = Ok (Some apiKey) →
  apiKey ≠ "" →
  active_keys apiKey (tbl_apiKeys w) = k :: rest →
  ids_unique (tbl_apiKeys w) →
  keys_unique (tbl_apiKeys w) →
  fault w (trips w) = None →
  fault w (S (trips w)) = None →
  match apiKeys.expiresAt k with
  | None => True
  | Some e => clock w (dates w) ≤ e
  end →
  ∃ t,
    t = clock w (dates w + (match apiKeys.expiresAt k with
                            | Some _ => 1 | None => 0 end))%nat
    ∧ fst (apiKeyMiddleware w) = Ok Passed
    ∧ ctx_apiKey (ctx (snd (apiKeyMiddleware w))) = Some k
    ∧ ctx_user (ctx (snd (apiKeyMiddleware w))) = ctx_user (ctx w)
    ∧ tbl_apiKeys (snd (apiKeyMiddleware w)) =
        (λ r, if decide (apiKeys.id r = apiKeys.id k)
              then apiKeys.set_lastUsedAt t k else r) <$> tbl_apiKeys w
    ∧ (∀ r, r ∈ tbl_apiKeys w → r ≠ k →
         r ∈ tbl_apiKeys (snd (apiKeyMiddleware w)))
    ∧ apiKeys.set_lastUsedAt t k ∈ tbl_apiKeys (snd (apiKeyMiddleware w))
    ∧ tbl_users (snd (apiKeyMiddleware w)) = tbl_users w.
Proof.
  intros Hkey Hne Hfound Hids Hkeys Hf Hf' He.
  pose proof (apiKeyMiddleware_touch_run w apiKey k rest Hkey Hne Hfound Hf He)
    as Hrun.
  cbn zeta in Hrun. rewrite Hf' in Hrun.
  destruct (Hrun Hkeys) as (Hout & Htbl & Hctx). clear Hrun.
  destruct (apiKeyMiddleware_rejects_cleanly w) as (out & _ & Husers & _).
  assert (Hk : k ∈ tbl_apiKeys w).
  { assert (k ∈ active_keys apiKey (tbl_apiKeys w)) as Hin
      by (rewrite Hfound; apply elem_of_cons; auto).
    by apply list_elem_of_filter in Hin as [_ ?]. }
  set (t := clock w (dates w + _)%nat) in *.
  assert (Hsame :
    (λ r, if decide (apiKeys.id r = apiKeys.id k)
          then apiKeys.set_lastUsedAt t r else r) <$> tbl_apiKeys w
    = (λ r, if decide (apiKeys.id r = apiKeys.id k)
            then apiKeys.set_lastUsedAt t k else r) <$> tbl_apiKeys w).
  { apply list_fmap_ext. intros i r Hr.
    destruct (decide (apiKeys.id r = apiKeys.id k)) as [E|]; [|done].
    apply list_elem_of_lookup_2 in Hr.
    by rewrite (ids_unique_inj (tbl_apiKeys w) r k). }
  exists t. rewrite Hout, Hctx, Htbl, Hsame. cbn.
  repeat split; try done.
  - intros r Hr Hrk. apply list_elem_of_fmap. exists r. split; [|done].
    rewrite decide_False; [done|].
    intros E. apply Hrk. by apply (ids_unique_inj (tbl_apiKeys w)).
  - apply list_elem_of_fmap. exists k. split; [|done].
    by rewrite decide_True.
Qed.

(** X4: a key that is found, active and not expired is still answered 500
    "Authentication failed" when the write of [lastUsedAt] fails: the error
    is logged, nothing is written and no record is attached. *)
Theorem apiKeyMiddleware_touch_failure (w : World) (apiKey : string)
    (k : apiKeys.row) (rest : list apiKeys.row) (e : exn) :
  fst (presented_apiKey w) = Ok (Some apiKey) →
  apiKey ≠ "" →
  active_keys apiKey (tbl_apiKeys w) = k :: rest →
  fault w (trips w) = None →
  fault w (S (trips w)) = Some e →
  match apiKeys.expiresAt k with
  | None => True
  | Some t => clock w (dates w) ≤ t
  end →
  fst (apiKeyMiddleware w) =
    Ok (Respond (mkResponse 500 (error_body "Authentication failed")))
  ∧ last (trace (snd (apiKeyMiddleware w)))
    = Some (EvConsoleError "API key middleware error:" e)
  ∧ tbl_apiKeys (snd (apiKeyMiddleware w)) = tbl_apiKeys w
  ∧ ctx (snd (apiKeyMiddleware w)) = ctx w.
Proof.
  intros Hkey Hne Hfound Hf Hf' He.
  pose proof (apiKeyMiddleware_touch_run w apiKey k rest Hkey Hne Hfound Hf He)
    as Hrun.
  cbn zeta in Hrun. rewrite Hf' in Hrun. destruct Hrun as [Hout Hlog].
  destruct (apiKeyMiddleware_rejects_cleanly w)
    as (out & Hout' & _ & [->|(r & -> & _ & Htbl & Hctx)]).
  - rewrite Hout in Hout'. discriminate.
  - done.
Qed.

Lemma apiKeyMiddleware_touches_one_row_witness :
  ∃ t,
    t = 500
    ∧ fst (apiKeyMiddleware Scenario.w_key_valid) = Ok Passed
    ∧ ctx_apiKey (ctx (snd (apiKeyMiddleware Scenario.w_key_valid)))
      = Some Demo.k1
    ∧ ctx_user (ctx (snd (apiKeyMiddleware Scenario.w_key_valid))) = None
    ∧ tbl_apiKeys (snd (apiKeyMiddleware Scenario.w_key_valid)) =
        (λ r, if decide (apiKeys.id r = "k1")
              then apiKeys.set_lastUsedAt t Demo.k1 else r)
          <$> [Demo.k1; Demo.k2]
    ∧ (∀ r, r ∈ [Demo.k1; Demo.k2] → r ≠ Demo.k1 →
         r ∈ tbl_apiKeys (snd (apiKeyMiddleware Scenario.w_key_valid)))
    ∧ apiKeys.set_lastUsedAt t Demo.k1
      ∈ tbl_apiKeys (snd (apiKeyMiddleware Scenario.w_key_valid))
    ∧ tbl_users (snd (apiKeyMiddleware Scenario.w_key_valid)) = [Demo.alice].
Proof.
  apply (apiKeyMiddleware_touches_one_row Scenario.w_key_valid "zk_aa"
           Demo.k1 []).
  - by vm_compute.
  - discriminate.
  - by vm_compute.
  - apply (bool_decide_unpack _). by vm_compute.
  - apply (bool_decide_unpack _). by vm_compute.
  - reflexivity.
  - reflexivity.
  - by vm_compute.
Defined.

Lemma apiKeyMiddleware_touch_failure_witness :
  fst (apiKeyMiddleware Scenario.w_touch_fails) =
    Ok (Respond (mkResponse 500 (error_body "Authentication failed")))
  ∧ last (trace (snd (apiKeyMiddleware Scenario.w_touch_fails)))
    = Some (EvConsoleError "API key middleware error:"
              (Exn "Connection terminated unexpectedly"))
  ∧ tbl_apiKeys (snd (apiKeyMiddleware Scenario.w_touch_fails))
    = tbl_apiKeys Scenario.w_touch_fails
  ∧ ctx (snd (apiKeyMiddleware Scenario.w_touch_fails))
    = ctx Scenario.w_touch_fails.
Proof.
  apply (apiKeyMiddleware_touch_failure Scenario.w_touch_fails "zk_bb"
           Demo.k2 []).
  - by vm_compute.
  - discriminate.
  - by vm_compute.
  - reflexivity.
  - reflexivity.
  - done.
Defined.

(** ** The routes of the API keys router *)

Lemma filter_id_unique (t : list apiKeys.row) (old : apiKeys.row) :
  ids_unique t → old ∈ t →
  filter (λ k, apiKeys.id k = apiKeys.id old) t = [old].
Proof.
  unfold ids_unique. induction t as [|x t IH]; intros Hids Hold.
  - by apply elem_of_nil in Hold.
  - rewrite fmap_cons in Hids. apply NoDup_cons in Hids as [Hx Hids].
    rewrite filter_cons. apply elem_of_cons in Hold as [->|Hold].
    + rewrite decide_True by done. f_equal. apply filter_off.
      intros k Hk E. apply Hx. rewrite <- E. by apply list_elem_of_fmap_2.
    + rewrite decide_False; [by apply IH|].
      intros E. apply Hx. rewrite E. by apply list_elem_of_fmap_2.
Qed.

Lemma filter_all {A} (P : A → Prop) `{!∀ x, Decision (P x)} (l : list A) :
  (∀ x, x ∈ l → P x) → filter P l = l.
Proof.
  induction l as [|x l IH]; intros Hall; [done|].
  rewrite filter_cons, decide_True by (apply Hall, elem_of_cons; auto).
  f_equal. apply IH. intros y Hy. apply Hall, elem_of_cons; auto.
Qed.

(** A value that no active row carries is answered 401 at the gate. *)
Lemma apiKeyMiddleware_absent_key (w : World) (v : string) :
  fst (presented_apiKey w) = Ok (Some v) →
  fault w (trips w) = None →
  active_keys v (tbl_apiKeys w) = [] →
  ∃ msg, fst (apiKeyMiddleware w) =
           Ok (Respond (mkResponse 401 (error_body msg))).
Proof.
  intros Hpres Hf Hnone.
  destruct (decide (v = "")) as [->|Hne].
  - exists "API key is required".
    rewrite apiKeyMiddleware_missing; [done|].
    rewrite presented_apiKey_run in Hpres. cbn in Hpres.
    by injection Hpres as ->.
  - exists "Invalid API key".
    by apply (apiKeyMiddleware_invalid w v).
Qed.

(** X6: deleting an existing key row answers 200 and removes that row and
    no other: every other row is still there, no row is added, the users
    table is untouched, and from then on a request presenting the deleted
    value is answered 401 by the API key gate. *)
Theorem delete_apiKey_removes (w : World) (old : apiKeys.row) :
  old ∈ tbl_apiKeys w →
  req_params (req w) !! "id" = Some (apiKeys.id old) →
  ids_unique (tbl_apiKeys w) →
  fault w (trips w) = None →
  fst (delete_apiKey w) =
    Ok (Respond (mkResponse 200
          {[ "message" := JStr "API key deleted successfully" ]}))
  ∧ tbl_apiKeys (snd (delete_apiKey w)) =
      filter (λ k, ¬ (apiKeys.id k = apiKeys.id old)) (tbl_apiKeys w)
  ∧ (old ∉ tbl_apiKeys (snd (delete_apiKey w)))
  ∧ (∀ r, r ∈ tbl_apiKeys w → r ≠ old →
       r ∈ tbl_apiKeys (snd (delete_apiKey w)))
  ∧ (∀ r, r ∈ tbl_apiKeys (snd (delete_apiKey w)) → r ∈ tbl_apiKeys w)
  ∧ tbl_users (snd (delete_apiKey w)) = tbl_users w
  ∧ (keys_unique (tbl_apiKeys w) →
     ∀ w2, tbl_apiKeys w2 = tbl_apiKeys (snd (delete_apiKey w)) →
           fst (presented_apiKey w2) = Ok (Some (apiKeys.key old)) →
           fault w2 (trips w2) = None →
           ∃ msg, fst (apiKeyMiddleware w2) =
                    Ok (Respond (mkResponse 401 (error_body msg)))).
Proof.
  intros Hold Hid Hids Hf.
  assert (Hrun :
    delete_apiKey w =
      (Ok (Respond (mkResponse 200
             {[ "message" := JStr "API key deleted successfully" ]})),
       with_apiKeys
         (filter (λ k, ¬ (apiKeys.id k = apiKeys.id old)) (tbl_apiKeys w))
         (with_trips (S (trips w)) w))).
  { unfold delete_apiKey, delete_apiKeys, round_trip_unlogged. run.
    rewrite Hf. cbn. rewrite Hid. cbn.
    by rewrite (filter_id_unique _ old Hids Hold). }
  rewrite Hrun. cbn.
  split; [done|]. split; [done|].
  split; [by intros [? _]%list_elem_of_filter|].
  split; [|split; [|split; [done|]]].
  - intros r Hr Hne. apply list_elem_of_filter. split; [|done].
    intros E. apply Hne. by apply (ids_unique_inj (tbl_apiKeys w)).
  - by intros r [_ ?]%list_elem_of_filter.
  - intros Hkeys w2 Htbl Hpres Hf2.
    apply (apiKeyMiddleware_absent_key w2 (apiKeys.key old)); try done.
    rewrite Htbl. apply filter_off.
    intros k [Hk Hin]%list_elem_of_filter [E _].
    apply Hk. f_equal. by apply (keys_unique_inj (tbl_apiKeys w)).
Qed.

Lemma delete_apiKey_removes_witness :
  fst (delete_apiKey Demo.w_regenerate) =
    Ok (Respond (mkResponse 200
          {[ "message" := JStr "API key deleted successfully" ]}))
  ∧ tbl_apiKeys (snd (delete_apiKey Demo.w_regenerate)) =
      filter (λ k, ¬ (apiKeys.id k = "k1")) [Demo.k1; Demo.k2]
  ∧ (Demo.k1 ∉ tbl_apiKeys (snd (delete_apiKey Demo.w_regenerate)))
  ∧ (∀ r, r ∈ [Demo.k1; Demo.k2] → r ≠ Demo.k1 →
       r ∈ tbl_apiKeys (snd (delete_apiKey Demo.w_regenerate)))
  ∧ (∀ r, r ∈ tbl_apiKeys (snd (delete_apiKey Demo.w_regenerate)) →
       r ∈ [Demo.k1; Demo.k2])
  ∧ tbl_users (snd (delete_apiKey Demo.w_regenerate)) = [Demo.alice]
  ∧ (keys_unique [Demo.k1; Demo.k2] →
     ∀ w2, tbl_apiKeys w2 = tbl_apiKeys (snd (delete_apiKey Demo.w_regenerate)) →
           fst (presented_apiKey w2) = Ok (Some "zk_aa") →
           fault w2 (trips w2) = None →
           ∃ msg, fst (apiKeyMiddleware w2) =
                    Ok (Respond (mkResponse 401 (error_body msg)))).
Proof.
  apply (delete_apiKey_removes Demo.w_regenerate Demo.k1).
  - apply elem_of_cons. by left.
  - reflexivity.
  - apply (bool_decide_unpack _). by vm_compute.
  - reflexivity.
Defined.

Section KeyRouteProofs.
Variable z_issues : string → jsobj → jsval.
Variable z_datetime : string → bool.
Variable Date_parse : string → Z.

Lemma set_updateData_keeps (data : UpdateApiKeyInput) (now : Z)
    (r : apiKeys.row) :
  keeps_identity r (set_updateData Date_parse data now r).
Proof.
  unfold keeps_identity, set_updateData. cbn. repeat split.
  intros [e He]. rewrite He. by destruct (expiry_of _ _).
Qed.

Lemma keeps_identity_refl (r : apiKeys.row) : keeps_identity r r.
Proof. by repeat split. Qed.

(** X5: whatever the request and whatever the outcome, the update route
    leaves the table with the same rows in the same places, and in each of
    them the id, the secret, the creator, the creation time and the time of
    last use are as before; an expiry that was set is still set. *)
Theorem update_apiKey_keeps_identity (w : World) :
  Forall2 keeps_identity (tbl_apiKeys w)
    (tbl_apiKeys (snd (update_apiKey z_issues z_datetime Date_parse w)))
  ∧ tbl_users (snd (update_apiKey z_issues z_datetime Date_parse w))
    = tbl_users w.
Proof.
  assert (Hrefl : Forall2 keeps_identity (tbl_apiKeys w) (tbl_apiKeys w)).
  { apply Forall2_same_length_lookup_2; [done|].
    intros i x y Hx Hy. rewrite Hx in Hy. injection Hy as <-.
    apply keeps_identity_refl. }
  unfold update_apiKey, validation_failed, update_apiKeys. run.
  destruct (updateApiKeySchema _ _) as [data|]; cbn; [|done].
  destruct (fault w (trips w)); cbn; [done|].
  destruct (decide _); cbn; [|done].
  destruct (_ <$> filter _ _); cbn; (split; [|done]);
    apply Forall2_fmap_r, Forall2_same_length_lookup_2; try done;
    intros i x0 y0 Hx Hy; rewrite Hx in Hy; injection Hy as <-;
    cbn; (case_decide;
       [apply set_updateData_keeps|apply keeps_identity_refl]).
Qed.

(** X7: an id that names no row is, when the store answers the statement,
    answered 404 "API key not found" by the get, update, delete and
    regenerate routes alike, and none of them changes the table. *)
Theorem missing_id_is_404 (w : World) (id : string) :
  req_params (req w) !! "id" = Some id →
  (∀ k, k ∈ tbl_apiKeys w → apiKeys.id k ≠ id) →
  keys_unique (tbl_apiKeys w) →
  fault w (trips w) = None →
  (fst (get_apiKey w) =
     Ok (Respond (mkResponse 404 (error_body "API key not found")))
   ∧ tbl_apiKeys (snd (get_apiKey w)) = tbl_apiKeys w)
  ∧ (fst (delete_apiKey w) =
       Ok (Respond (mkResponse 404 (error_body "API key not found")))
     ∧ tbl_apiKeys (snd (delete_apiKey w)) = tbl_apiKeys w)
  ∧ (fst (regenerate w) =
       Ok (Respond (mkResponse 404 (error_body "API key not found")))
     ∧ tbl_apiKeys (snd (regenerate w)) = tbl_apiKeys w)
  ∧ (is_Some (updateApiKeySchema z_datetime (req_json (req w))) →
     fst (update_apiKey z_issues z_datetime Date_parse w) =
       Ok (Respond (mkResponse 404 (error_body "API key not found")))
     ∧ tbl_apiKeys (snd (update_apiKey z_issues z_datetime Date_parse w))
       = tbl_apiKeys w).
Proof.
  intros Hid Hnone Hkeys Hf.
  assert (Hsel : filter (λ k, apiKeys.id k = id) (tbl_apiKeys w) = [])
    by (by apply filter_off).
  assert (Hmap : ∀ f : apiKeys.row → apiKeys.row,
            (λ k, if decide (apiKeys.id k = id) then f k else k)
              <$> tbl_apiKeys w = tbl_apiKeys w)
    by (intros f; by apply fmap_off).
  split; [|split; [|split]].
  - unfold get_apiKey, select_apiKeys. run.
    rewrite Hf. cbn. rewrite Hid. cbn. by rewrite Hsel.
  - unfold delete_apiKey, delete_apiKeys, round_trip_unlogged. run.
    rewrite Hf. cbn. rewrite Hid. cbn. rewrite Hsel. cbn.
    split; [done|]. by apply filter_all.
  - unfold regenerate, generateApiKey, update_apiKeys. run.
    rewrite Hf. cbn. rewrite Hid. cbn. rewrite Hmap, Hsel.
    by rewrite decide_True.
  - intros [data Hdata].
    unfold update_apiKey, update_apiKeys. run.
    rewrite Hdata. cbn. rewrite Hf. cbn. rewrite Hid. cbn.
    rewrite Hmap, Hsel. by rewrite decide_True.
Qed.

(** X8: the update route on an existing row writes the fields the body
    supplies, and the time of the update, into that row and into no other,
    and answers 200 with the row as written; a field the body leaves out
    keeps its value. When the body sets [isActive] to false, a request
    presenting the key of that row is from then on answered 401 by the API
    key gate. *)
Theorem update_apiKey_applies (w : World) (old : apiKeys.row)
    (data : UpdateApiKeyInput) :
  old ∈ tbl_apiKeys w →
  req_params (req w) !! "id" = Some (apiKeys.id old) →
  updateApiKeySchema z_datetime (req_json (req w)) = Some data →
  ids_unique (tbl_apiKeys w) →
  keys_unique (tbl_apiKeys w) →
  fault w (trips w) = None →
  ∃ new,
    new = set_updateData Date_parse data (clock w (dates w)) old
    ∧ fst (update_apiKey z_issues z_datetime Date_parse w) =
        Ok (Respond (mkResponse 200
              {[ "data" := JObj (apiKeys.to_obj new) ]}))
    ∧ tbl_apiKeys (snd (update_apiKey z_issues z_datetime Date_parse w)) =
        (λ k, if decide (apiKeys.id k = apiKeys.id old) then new else k)
          <$> tbl_apiKeys w
    ∧ (∀ r, r ∈ tbl_apiKeys w → r ≠ old →
         r ∈ tbl_apiKeys
               (snd (update_apiKey z_issues z_datetime Date_parse w)))
    ∧ apiKeys.name new = default (apiKeys.name old) (uak_name data)
    ∧ apiKeys.isActive new
      = default (apiKeys.isActive old) (uak_isActive data)
    ∧ (uak_description data = None →
       apiKeys.description new = apiKeys.description old)
    ∧ (uak_expiresAt data = None →
       apiKeys.expiresAt new = apiKeys.expiresAt old)
    ∧ apiKeys.updatedAt new = clock w (dates w)
    ∧ (uak_isActive data = Some false →
       ∀ w2, tbl_apiKeys w2
             = tbl_apiKeys
                 (snd (update_apiKey z_issues z_datetime Date_parse w)) →
             fst (presented_apiKey w2) = Ok (Some (apiKeys.key old)) →
             fault w2 (trips w2) = None →
             ∃ msg, fst (apiKeyMiddleware w2) =
                      Ok (Respond (mkResponse 401 (error_body msg)))).
Proof.
  intros Hold Hid Hdata Hids Hkeys Hf.
  set (now := clock w (dates w)).
  set (new := set_updateData Date_parse data now old).
  assert (Htable :
    (λ k, if decide (apiKeys.id k = apiKeys.id old)
          then set_updateData Date_parse data now k else k)
      <$> tbl_apiKeys w
    = (λ k, if decide (apiKeys.id k = apiKeys.id old) then new else k)
      <$> tbl_apiKeys w).
  { apply list_fmap_ext. intros i k Hk.
    destruct (decide (apiKeys.id k = apiKeys.id old)) as [E|]; [|done].
    apply list_elem_of_lookup_2 in Hk.
    by rewrite (ids_unique_inj (tbl_apiKeys w) k old). }
  assert (Hunique : keys_unique
            ((λ k, if decide (apiKeys.id k = apiKeys.id old)
                   then set_updateData Date_parse data now k else k)
               <$> tbl_apiKeys w)).
  { unfold keys_unique. rewrite <- list_fmap_compose.
    erewrite list_fmap_ext; [exact Hkeys|].
    intros i k _. cbn. by case_decide. }
  assert (Hrun :
    update_apiKey z_issues z_datetime Date_parse w =
      (Ok (Respond (mkResponse 200
             {[ "data" := JObj (apiKeys.to_obj new) ]})),
       with_apiKeys
         ((λ k, if decide (apiKeys.id k = apiKeys.id old) then new else k)
            <$> tbl_apiKeys w)
         (with_trips (S (trips w))
            (with_trace (trace w ++ [EvUpdateApiKeys])
               (with_dates (S (dates w)) w))))).
  { unfold update_apiKey, update_apiKeys. run.
    rewrite Hdata. cbn. rewrite Hf. cbn. rewrite Hid. cbn. fold now.
    rewrite decide_True by done.
    rewrite (filter_id_unique _ old Hids Hold). cbn. fold new.
    by rewrite Htable. }
  exists new. rewrite Hrun. cbn.
  split; [done|]. split; [done|]. split; [done|].
  split; [|split; [done|split; [done|split; [|split; [|split; [done|]]]]]].
  - intros r Hr Hne. apply list_elem_of_fmap. exists r. split; [|done].
    rewrite decide_False; [done|].
    intros E. apply Hne. by apply (ids_unique_inj (tbl_apiKeys w)).
  - by intros ->.
  - intros ->. done.
  - intros Hoff w2 Htbl Hpres Hf2.
    apply (apiKeyMiddleware_absent_key w2 (apiKeys.key old)); try done.
    rewrite Htbl. apply filter_off.
    intros k' (k & -> & Hk)%list_elem_of_fmap [E A].
    destruct (decide (apiKeys.id k = apiKeys.id old)) as [Hi|Hi].
    + unfold new, set_updateData in A. cbn in A. rewrite Hoff in A.
      discriminate.
    + apply Hi. f_equal. by apply (keys_unique_inj (tbl_apiKeys w)).
Qed.

Lemma createApiKeySchema_picks (b : jsobj) (field : string) (v : jsval) :
  field ∉ ["name"; "description"; "expiresAt"] →
  createApiKeySchema z_datetime (<[field := v]> b)
  = createApiKeySchema z_datetime b.
Proof.
  intros Hf. unfold createApiKeySchema.
  rewrite !lookup_insert_ne; [done|..]; intros ->; apply Hf;
    by apply (bool_decide_unpack _).
Qed.

(** The run of the create route that the store accepts. *)
Lemma create_apiKey_run (w : World) (data : CreateApiKeyInput)
    (u : AuthUser) :
  createApiKeySchema z_datetime (req_json (req w)) = Some data →
  ctx_user (ctx w) = Some u →
  fault w (trips w) = None →
  db_uuid w (trips w) ∉ apiKeys.id <$> tbl_apiKeys w →
  "zk_" +:+ toString_hex (next_bytes 32 w) ∉ apiKeys.key <$> tbl_apiKeys w →
  au_id u ∈ users.id <$> tbl_users w →
  let k := apiKeys.mk (db_uuid w (trips w)) (cak_name data)
             ("zk_" +:+ toString_hex (next_bytes 32 w))
             (cak_description data) (au_id u) true None
             (expiry_of Date_parse (cak_expiresAt data))
             (db_now w (trips w)) (db_now w (trips w)) in
  create_apiKey z_issues z_datetime Date_parse w =
    (Ok (Respond (mkResponse 201 {[ "data" := JObj (apiKeys.to_obj k) ]})),
     with_apiKeys (tbl_apiKeys w ++ [k])
       (with_trips (S (trips w)) (with_drawn (drawn w + 32) w))).
Proof.
  intros Hdata Hu Hf Hid Hkey Hfk.
  unfold create_apiKey, generateApiKey, insert_apiKeys, round_trip_unlogged.
  run. rewrite Hdata. cbn. rewrite Hu. cbn. rewrite Hf. cbn.
  rewrite decide_False by (intros [?|?]; auto).
  by rewrite decide_True.
Qed.

(** X9: the create route stores one new row whose secret is the generated
    value, whose creator is the authenticated caller, which is active and
    has never been used; name, description and expiry come from the body.
    Nothing else the body holds has a part in it: a [key], [createdBy],
    [isActive] or [id] field of the body is dropped by the schema. *)
Theorem create_apiKey_creates (w : World) (data : CreateApiKeyInput)
    (u : AuthUser) :
  createApiKeySchema z_datetime (req_json (req w)) = Some data →
  ctx_user (ctx w) = Some u →
  fault w (trips w) = None →
  db_uuid w (trips w) ∉ apiKeys.id <$> tbl_apiKeys w →
  "zk_" +:+ toString_hex (next_bytes 32 w) ∉ apiKeys.key <$> tbl_apiKeys w →
  au_id u ∈ users.id <$> tbl_users w →
  ∃ k,
    fst (create_apiKey z_issues z_datetime Date_parse w) =
      Ok (Respond (mkResponse 201 {[ "data" := JObj (apiKeys.to_obj k) ]}))
    ∧ tbl_apiKeys (snd (create_apiKey z_issues z_datetime Date_parse w))
      = (tbl_apiKeys w ++ [k])%list
    ∧ apiKeys.key k = "zk_" +:+ toString_hex (next_bytes 32 w)
    ∧ apiKeys.createdBy k = au_id u
    ∧ apiKeys.isActive k = true
    ∧ apiKeys.lastUsedAt k = None
    ∧ apiKeys.name k = cak_name data
    ∧ apiKeys.description k = cak_description data
    ∧ apiKeys.expiresAt k = expiry_of Date_parse (cak_expiresAt data)
    ∧ (∀ field v, field ∈ ["key"; "createdBy"; "isActive"; "id"] →
         createApiKeySchema z_datetime (<[field := v]> (req_json (req w)))
         = Some data).
Proof.
  intros Hdata Hu Hf Hid Hkey Hfk.
  rewrite (create_apiKey_run w data u) by done. cbn.
  eexists. repeat split.
  intros field v Hin. rewrite createApiKeySchema_picks; [done|].
  intros Hout.
  repeat match goal with
         | H : _ ∈ _ :: _ |- _ => apply elem_of_cons in H as [E|H]; [subst|]
         | H : _ ∈ [] |- _ => by apply elem_of_nil in H
         end; discriminate.
Qed.

(** X10: a key that has just been created authenticates: a request that
    presents the value of the 201 answer, before its expiry if it has one,
    is let through by the API key gate with the created row attached. *)
Theorem create_then_authenticate (w : World) (data : CreateApiKeyInput)
    (u : AuthUser) (w2 : World) :
  createApiKeySchema z_datetime (req_json (req w)) = Some data →
  ctx_user (ctx w) = Some u →
  fault w (trips w) = None →
  db_uuid w (trips w) ∉ apiKeys.id <$> tbl_apiKeys w →
  "zk_" +:+ toString_hex (next_bytes 32 w) ∉ apiKeys.key <$> tbl_apiKeys w →
  au_id u ∈ users.id <$> tbl_users w →
  keys_unique (tbl_apiKeys w) →
  tbl_apiKeys w2
    = tbl_apiKeys (snd (create_apiKey z_issues z_datetime Date_parse w)) →
  fst (presented_apiKey w2)
    = Ok (Some ("zk_" +:+ toString_hex (next_bytes 32 w))) →
  fault w2 (trips w2) = None →
  fault w2 (S (trips w2)) = None →
  match expiry_of Date_parse (cak_expiresAt data) with
  | None => True
  | Some e => clock w2 (dates w2) ≤ e
  end →
  ∃ k,
    fst (create_apiKey z_issues z_datetime Date_parse w) =
      Ok (Respond (mkResponse 201 {[ "data" := JObj (apiKeys.to_obj k) ]}))
    ∧ fst (apiKeyMiddleware w2) = Ok Passed
    ∧ ctx_apiKey (ctx (snd (apiKeyMiddleware w2))) = Some k.
Proof.
  intros Hdata Hu Hf Hid Hkey Hfk Hkeys Htbl Hpres Hf2 Hf2' Hexp.
  rewrite (create_apiKey_run w data u) in Htbl |- * by done.
  cbn in Htbl |- *. eexists. split; [reflexivity|].
  set (v := "zk_" +:+ toString_hex (next_bytes 32 w)) in *.
  set (k := apiKeys.mk _ _ v _ _ _ _ _ _ _) in *.
  assert (Hfound : active_keys v (tbl_apiKeys w2) = [k]).
  { rewrite Htbl. unfold active_keys. rewrite filter_app.
    rewrite filter_off.
    - rewrite filter_cons, decide_True by done. done.
    - intros r Hr [E _]. apply Hkey. rewrite <- E.
      by apply list_elem_of_fmap_2. }
  assert (Hunique : keys_unique (tbl_apiKeys w2)).
  { rewrite Htbl. unfold keys_unique. rewrite fmap_app.
    apply NoDup_app. split; [done|]. split.
    - intros x Hx Hx'. apply list_elem_of_singleton in Hx'. subst x.
      by apply Hkey.
    - apply NoDup_singleton. }
  assert (v ≠ "") as Hne by done.
  destruct (apiKeyMiddleware_accepts w2 v Hpres Hne k [] Hunique Hf2 Hf2'
              Hfound) as [Hout Hctx]; [done|].
  by rewrite Hout, Hctx.
Qed.

End KeyRouteProofs.

Lemma missing_id_is_404_witness :
  (fst (get_apiKey Scenario.w_missing_id) =
     Ok (Respond (mkResponse 404 (error_body "API key not found")))
   ∧ tbl_apiKeys (snd (get_apiKey Scenario.w_missing_id))
     = [Demo.k1; Demo.k2])
  ∧ (fst (delete_apiKey Scenario.w_missing_id) =
       Ok (Respond (mkResponse 404 (error_body "API key not found")))
     ∧ tbl_apiKeys (snd (delete_apiKey Scenario.w_missing_id))
       = [Demo.k1; Demo.k2])
  ∧ (fst (regenerate Scenario.w_missing_id) =
       Ok (Respond (mkResponse 404 (error_body "API key not found")))
     ∧ tbl_apiKeys (snd (regenerate Scenario.w_missing_id))
       = [Demo.k1; Demo.k2])
  ∧ (is_Some (updateApiKeySchema Scenario.z_datetime
                (req_json (req Scenario.w_missing_id))) →
     fst (update_apiKey Stub.z_issues Scenario.z_datetime
            Scenario.Date_parse Scenario.w_missing_id) =
       Ok (Respond (mkResponse 404 (error_body "API key not found")))
     ∧ tbl_apiKeys (snd (update_apiKey Stub.z_issues Scenario.z_datetime
                           Scenario.Date_parse Scenario.w_missing_id))
       = [Demo.k1; Demo.k2]).
Proof.
  apply (missing_id_is_404 Stub.z_issues Scenario.z_datetime
           Scenario.Date_parse Scenario.w_missing_id "k9").
  - reflexivity.
  - intros k Hk. apply elem_of_cons in Hk as [->|Hk]; [done|].
    by apply list_elem_of_singleton in Hk as ->.
  - apply (bool_decide_unpack _). by vm_compute.
  - reflexivity.
Defined.

Lemma update_apiKey_applies_witness :
  ∃ new,
    new = set_updateData Scenario.Date_parse
            (mkUpdateApiKeyInput None None (Some false) None) 500 Demo.k1
    ∧ fst (update_apiKey Stub.z_issues Scenario.z_datetime
             Scenario.Date_parse Scenario.w_deactivate) =
        Ok (Respond (mkResponse 200
              {[ "data" := JObj (apiKeys.to_obj new) ]}))
    ∧ tbl_apiKeys (snd (update_apiKey Stub.z_issues Scenario.z_datetime
                          Scenario.Date_parse Scenario.w_deactivate)) =
        (λ k, if decide (apiKeys.id k = "k1") then new else k)
          <$> [Demo.k1; Demo.k2]
    ∧ (∀ r, r ∈ [Demo.k1; Demo.k2] → r ≠ Demo.k1 →
         r ∈ tbl_apiKeys
               (snd (update_apiKey Stub.z_issues Scenario.z_datetime
                       Scenario.Date_parse Scenario.w_deactivate)))
    ∧ apiKeys.name new = "storefront"
    ∧ apiKeys.isActive new = false
    ∧ (@None string = None → apiKeys.description new = None)
    ∧ (@None string = None → apiKeys.expiresAt new = Some 1000)
    ∧ apiKeys.updatedAt new = 500
    ∧ (Some false = Some false →
       ∀ w2, tbl_apiKeys w2
             = tbl_apiKeys
                 (snd (update_apiKey Stub.z_issues Scenario.z_datetime
                         Scenario.Date_parse Scenario.w_deactivate)) →
             fst (presented_apiKey w2) = Ok (Some "zk_aa") →
             fault w2 (trips w2) = None →
             ∃ msg, fst (apiKeyMiddleware w2) =
                      Ok (Respond (mkResponse 401 (error_body msg)))).
Proof.
  apply (update_apiKey_applies Stub.z_issues Scenario.z_datetime
           Scenario.Date_parse Scenario.w_deactivate Demo.k1
           (mkUpdateApiKeyInput None None (Some false) None)).
  - apply elem_of_cons. by left.
  - reflexivity.
  - by vm_compute.
  - apply (bool_decide_unpack _). by vm_compute.
  - apply (bool_decide_unpack _). by vm_compute.
  - reflexivity.
Defined.

(** The deactivated key of the example is answered 401 "Invalid API key". *)
Example deactivated_key_rejected :
  fst (apiKeyMiddleware
         (with_req Demo.key_request
            (snd (update_apiKey Stub.z_issues Scenario.z_datetime
                    Scenario.Date_parse Scenario.w_deactivate))))
  = Ok (Respond (mkResponse 401 (error_body "Invalid API key"))).
Proof. by vm_compute. Qed.

Lemma create_apiKey_creates_witness :
  ∃ k,
    fst (create_apiKey Stub.z_issues Scenario.z_datetime Scenario.Date_parse
           Scenario.w_create) =
      Ok (Respond (mkResponse 201 {[ "data" := JObj (apiKeys.to_obj k) ]}))
    ∧ tbl_apiKeys (snd (create_apiKey Stub.z_issues Scenario.z_datetime
                          Scenario.Date_parse Scenario.w_create))
      = ([Demo.k1; Demo.k2] ++ [k])%list
    ∧ apiKeys.key k
      = "zk_" +:+ toString_hex (next_bytes 32 Scenario.w_create)
    ∧ apiKeys.createdBy k = "u1"
    ∧ apiKeys.isActive k = true
    ∧ apiKeys.lastUsedAt k = None
    ∧ apiKeys.name k = "ci"
    ∧ apiKeys.description k = None
    ∧ apiKeys.expiresAt k = None
    ∧ (∀ field v, field ∈ ["key"; "createdBy"; "isActive"; "id"] →
         createApiKeySchema Scenario.z_datetime
           (<[field := v]> (req_json (req Scenario.w_create)))
         = Some (mkCreateApiKeyInput "ci" None None)).
Proof.
  apply (create_apiKey_creates Stub.z_issues Scenario.z_datetime
           Scenario.Date_parse Scenario.w_create
           (mkCreateApiKeyInput "ci" None None)
           (mkAuthUser "u1" "a@x.com" "admin")).
  - by vm_compute.
  - reflexivity.
  - reflexivity.
  - apply (bool_decide_unpack _). by vm_compute.
  - apply (bool_decide_unpack _). by vm_compute.
  - apply (bool_decide_unpack _). by vm_compute.
Defined.

Lemma create_then_authenticate_witness :
  ∃ k,
    fst (create_apiKey Stub.z_issues Scenario.z_datetime Scenario.Date_parse
           Scenario.w_create) =
      Ok (Respond (mkResponse 201 {[ "data" := JObj (apiKeys.to_obj k) ]}))
    ∧ fst (apiKeyMiddleware
             (Scenario.w_created_key_used
                (snd (create_apiKey Stub.z_issues Scenario.z_datetime
                        Scenario.Date_parse Scenario.w_create))))
      = Ok Passed
    ∧ ctx_apiKey
        (ctx (snd (apiKeyMiddleware
                     (Scenario.w_created_key_used
                        (snd (create_apiKey Stub.z_issues Scenario.z_datetime
                                Scenario.Date_parse Scenario.w_create))))))
      = Some k.
Proof.
  apply (create_then_authenticate Stub.z_issues Scenario.z_datetime
           Scenario.Date_parse Scenario.w_create
           (mkCreateApiKeyInput "ci" None None)
           (mkAuthUser "u1" "a@x.com" "admin")).
  - by vm_compute.
  - reflexivity.
  - reflexivity.
  - apply (bool_decide_unpack _). by vm_compute.
  - apply (bool_decide_unpack _). by vm_compute.
  - apply (bool_decide_unpack _). by vm_compute.
  - apply (bool_decide_unpack _). by vm_compute.
  - reflexivity.
  - by vm_compute.
  - reflexivity.
  - reflexivity.
  - done.
Defined.

(** ** The routes behind the Session Auth Gate *)

Section BehindTheGate.
Context `{svc : AuthService}.
Variables (w : World) (token : string) (claims : JWTPayload) (u : users.row).
Hypothesis Hextract :
  extractTokenFromHeader (req_headers (req w) !! "Authorization")
  = Some token.
Hypothesis Htoken : token ≠ "".
Hypothesis Hverify : verifyToken (clock w (dates w)) token = Ok claims.
Hypothesis Hfault : fault w (trips w) = None.
Hypothesis Hfound :
  head (filter (λ r, users.id r = userId claims) (tbl_users w)) = Some u.
Hypothesis Hactive : users.isActive u = true.

(** The world the gate hands to the handler behind it. *)
Lemma authMiddleware_passes :
  authMiddleware w =
    (Ok Passed,
     with_ctx (mkCtx (Some (mkAuthUser (userId claims) (email claims)
                              (role claims)))
                 (ctx_apiKey (ctx w)))
       (with_trips (S (trips w))
          (with_trace ((trace w ++ [EvVerifyToken token]) ++ [EvSelectUsers])
             (with_dates (S (dates w))
                (with_trace (trace w ++ [EvVerifyToken token]) w))))).
Proof.
  unfold authMiddleware, verify_token, select_users. run.
  rewrite Hextract.
  assert (truthy (Some token) = true) as -> by (apply truthy_Some; eauto).
  cbn. rewrite Hverify. cbn. rewrite Hfault. cbn.
  destruct (filter _ (tbl_users w)) as [|u0 rest]; [done|].
  cbn in Hfound. injection Hfound as ->. cbn. by rewrite Hactive.
Qed.

Lemma refresh_run :
  fault w (S (trips w)) = None →
  fst (refresh w) =
    Ok (Respond (mkResponse 200
          (<["message" := JStr "Token refreshed successfully"]>
           (<["token" := JStr (generateToken (clock w (S (dates w))) u)]>
              ∅))))
  ∧ tbl_users (snd (refresh w)) = tbl_users w
  ∧ tbl_apiKeys (snd (refresh w)) = tbl_apiKeys w.
Proof.
  intros Hf2. unfold refresh, route. run. rewrite authMiddleware_passes. cbn.
  unfold refresh_handler, select_users, generate_token. run.
  rewrite Hf2. cbn.
  destruct (filter _ (tbl_users w)) as [|u0 rest]; [done|].
  cbn in Hfound. injection Hfound as ->. cbn. by rewrite Hactive.
Qed.

Lemma me_run :
  fault w (S (trips w)) = None →
  fst (me w) =
    Ok (Respond (mkResponse 200
          {[ "user" := JObj (userWithoutPassword u) ]}))
  ∧ tbl_users (snd (me w)) = tbl_users w
  ∧ tbl_apiKeys (snd (me w)) = tbl_apiKeys w.
Proof.
  intros Hf2. unfold me, route. run. rewrite authMiddleware_passes. cbn.
  unfold me_handler, select_users. run.
  rewrite Hf2. cbn.
  destruct (filter _ (tbl_users w)) as [|u0 rest]; [done|].
  cbn in Hfound. by injection Hfound as ->.
Qed.

End BehindTheGate.

Section BehindTheGateClaims.
Context `{svc : AuthService}.

(** X11: the refresh route, for a request that gets through the gate and
    a store that answers, mints the new token from the subject's row as the
    store holds it now: the row found under the id of the claims, not the
    claims themselves. Nothing is written. *)
Theorem refresh_mints_from_store (w : World) (token : string)
    (claims : JWTPayload) (u : users.row) :
  extractTokenFromHeader (req_headers (req w) !! "Authorization")
    = Some token →
  token ≠ "" →
  verifyToken (clock w (dates w)) token = Ok claims →
  fault w (trips w) = None →
  head (filter (λ r, users.id r = userId claims) (tbl_users w)) = Some u →
  users.isActive u = true →
  fault w (S (trips w)) = None →
  fst (refresh w) =
    Ok (Respond (mkResponse 200
          (<["message" := JStr "Token refreshed successfully"]>
           (<["token" := JStr (generateToken (clock w (S (dates w))) u)]>
              ∅))))
  ∧ users.id u = userId claims
  ∧ u ∈ tbl_users w
  ∧ tbl_users (snd (refresh w)) = tbl_users w
  ∧ tbl_apiKeys (snd (refresh w)) = tbl_apiKeys w.
Proof.
  intros Hx Hne Hv Hf Hu Hact Hf2.
  destruct (refresh_run w token claims u Hx Hne Hv Hf Hu Hact Hf2)
    as (Hout & Husers & Hkeys).
  assert (u ∈ filter (λ r, users.id r = userId claims) (tbl_users w)) as Hin.
  { destruct (filter _ (tbl_users w)) as [|u0 rest]; [done|].
    cbn in Hu. injection Hu as ->. apply elem_of_cons. by left. }
  apply list_elem_of_filter in Hin as [Hid Hin].
  by repeat split.
Qed.

(** X12: the me route, for a request that gets through the gate and a
    store that answers, returns the subject's row as the store holds it,
    less the password: the role and the email shown are the stored ones,
    also where the claims of the token say otherwise. *)
Theorem me_returns_stored_row (w : World) (token : string)
    (claims : JWTPayload) (u : users.row) :
  extractTokenFromHeader (req_headers (req w) !! "Authorization")
    = Some token →
  token ≠ "" →
  verifyToken (clock w (dates w)) token = Ok claims →
  fault w (trips w) = None →
  head (filter (λ r, users.id r = userId claims) (tbl_users w)) = Some u →
  users.isActive u = true →
  fault w (S (trips w)) = None →
  ∃ o,
    fst (me w) = Ok (Respond (mkResponse 200 {[ "user" := JObj o ]}))
    ∧ o !! "id" = Some (JStr (userId claims))
    ∧ o !! "role" = Some (JStr (role_name (users.role u)))
    ∧ o !! "email" = Some (JStr (users.email u))
    ∧ o !! "password" = None
    ∧ tbl_users (snd (me w)) = tbl_users w.
Proof.
  intros Hx Hne Hv Hf Hu Hact Hf2.
  destruct (me_run w token claims u Hx Hne Hv Hf Hu Hact Hf2)
    as (Hout & Husers & _).
  assert (u ∈ filter (λ r, users.id r = userId claims) (tbl_users w)) as Hin.
  { destruct (filter _ (tbl_users w)) as [|u0 rest]; [done|].
    cbn in Hu. injection Hu as ->. apply elem_of_cons. by left. }
  apply list_elem_of_filter in Hin as [Hid Hin].
  destruct (userWithoutPassword_lookup u) as (Hp & Hi & He & Hr).
  exists (userWithoutPassword u). rewrite <- Hid. by repeat split.
Qed.

End BehindTheGateClaims.

Lemma refresh_mints_from_store_witness :
  fst (@refresh Stub.auth Demo.w_session) =
    Ok (Respond (mkResponse 200
          (<["message" := JStr "Token refreshed successfully"]>
           (<["token" := JStr (@generateToken Stub.auth 500 Demo.alice)]>
              ∅))))
  ∧ users.id Demo.alice = "u1"
  ∧ Demo.alice ∈ tbl_users Demo.w_session
  ∧ tbl_users (snd (@refresh Stub.auth Demo.w_session)) = [Demo.alice]
  ∧ tbl_apiKeys (snd (@refresh Stub.auth Demo.w_session))
    = [Demo.k1; Demo.k2].
Proof.
  apply (refresh_mints_from_store (svc := Stub.auth) Demo.w_session
           "tok-1" (mkJWTPayload "u1" "a@x.com" "admin") Demo.alice);
    by vm_compute.
Defined.

Lemma me_returns_stored_row_witness :
  ∃ o,
    fst (@me Stub.auth Demo.w_session)
    = Ok (Respond (mkResponse 200 {[ "user" := JObj o ]}))
    ∧ o !! "id" = Some (JStr "u1")
    ∧ o !! "role" = Some (JStr "customer")
    ∧ o !! "email" = Some (JStr "a@x.com")
    ∧ o !! "password" = None
    ∧ tbl_users (snd (@me Stub.auth Demo.w_session)) = [Demo.alice].
Proof.
  apply (me_returns_stored_row (svc := Stub.auth) Demo.w_session
           "tok-1" (mkJWTPayload "u1" "a@x.com" "admin") Demo.alice);
    by vm_compute.
Defined.

(** ** Login and registration *)

Section LoginRegister.
Context `{svc : AuthService}.
Variable z_email : string → bool.
Variable z_issues : string → jsobj → jsval.

(** X13: the login route gives the same answer, 401 "Invalid
    credentials", to an email that no row carries and to a wrong password;
    a deactivated account is answered 401 "Account is deactivated" whatever
    the password, which is not looked at; and none of the three writes the
    store. *)
Theorem login_failures (w : World) (data : LoginInput) :
  loginSchema z_email (req_json (req w)) = Some data →
  fault w (trips w) = None →
  (filter (λ u, users.email u = li_email data) (tbl_users w) = [] →
     fst (login z_email z_issues w) =
       Ok (Respond (mkResponse 401 (error_body "Invalid credentials")))
     ∧ tbl_users (snd (login z_email z_issues w)) = tbl_users w)
  ∧ (∀ u rest,
       filter (λ u, users.email u = li_email data) (tbl_users w)
         = u :: rest →
       users.isActive u = true →
       comparePassword (li_password data) (users.password u) = Ok false →
       fst (login z_email z_issues w) =
         Ok (Respond (mkResponse 401 (error_body "Invalid credentials")))
       ∧ tbl_users (snd (login z_email z_issues w)) = tbl_users w)
  ∧ (∀ u rest,
       filter (λ u, users.email u = li_email data) (tbl_users w)
         = u :: rest →
       users.isActive u = false →
       fst (login z_email z_issues w) =
         Ok (Respond (mkResponse 401 (error_body "Account is deactivated")))
       ∧ tbl_users (snd (login z_email z_issues w)) = tbl_users w).
Proof.
  intros Hdata Hf. unfold login, select_users. run.
  rewrite Hdata. cbn. rewrite Hf. cbn.
  split; [|split].
  - by intros ->.
  - intros u rest -> Hact Hcmp. cbn. rewrite Hact. cbn. by rewrite Hcmp.
  - intros u rest -> Hact. cbn. by rewrite Hact.
Qed.

(** X14: a login that succeeds writes the time of the login into
    [lastLoginAt] of the rows with the id of the user found and changes
    nothing else; the token is minted from the row as it was read, and the
    user object of the answer is that row less its password, so the
    [lastLoginAt] it shows is the one of the login before. *)
Theorem login_success (w : World) (data : LoginInput) (u : users.row)
    (rest : list users.row) :
  loginSchema z_email (req_json (req w)) = Some data →
  fault w (trips w) = None →
  filter (λ u, users.email u = li_email data) (tbl_users w) = u :: rest →
  users.isActive u = true →
  comparePassword (li_password data) (users.password u) = Ok true →
  fault w (S (trips w)) = None →
  fst (login z_email z_issues w) =
    Ok (Respond (mkResponse 200
          (<["message" := JStr "Login successful"]>
           (<["user" := JObj (userWithoutPassword u)]>
           (<["token" := JStr (generateToken (clock w (S (dates w))) u)]>
              ∅)))))
  ∧ userWithoutPassword u !! "lastLoginAt"
    = Some (opt_date (users.lastLoginAt u))
  ∧ tbl_users (snd (login z_email z_issues w)) =
      (λ r, if decide (users.id r = users.id u)
            then users.set_lastLoginAt (Some (clock w (dates w))) r else r)
        <$> tbl_users w
  ∧ tbl_apiKeys (snd (login z_email z_issues w)) = tbl_apiKeys w.
Proof.
  intros Hdata Hf Hsel Hact Hcmp Hf2.
  unfold login, select_users, update_users, generate_token. run.
  rewrite Hdata. cbn. rewrite Hf. cbn. rewrite Hsel. cbn.
  rewrite Hact. cbn. rewrite Hcmp. cbn. rewrite Hf2. cbn.
  by repeat split.
Qed.

(** X15: a registration is refused without a trace in two cases: a body
    the schema refuses is answered 400 before the store is asked anything,
    and an email that a row already carries is answered 400 "User already
    exists with this email" after one query, with the users table as it
    was and no random byte drawn, the password not having been hashed. *)
Theorem register_refusals (w : World) :
  (registerSchema z_email (req_json (req w)) = None →
     ∃ r, register z_email z_issues w = (Ok (Respond r), w) ∧ status r = 400)
  ∧ (∀ data u,
       registerSchema z_email (req_json (req w)) = Some data →
       fault w (trips w) = None →
       u ∈ tbl_users w →
       users.email u = ri_email data →
       fst (register z_email z_issues w) =
         Ok (Respond (mkResponse 400
               (error_body "User already exists with this email")))
       ∧ tbl_users (snd (register z_email z_issues w)) = tbl_users w
       ∧ drawn (snd (register z_email z_issues w)) = drawn w
       ∧ trips (snd (register z_email z_issues w)) = S (trips w)).
Proof.
  split.
  - intros Hnone. unfold register, validation_failed. run. rewrite Hnone.
    by eexists.
  - intros data u Hdata Hf Hu He.
    unfold register, select_users. run.
    rewrite Hdata. cbn. rewrite Hf. cbn.
    destruct (filter _ (tbl_users w)) as [|u0 rest] eqn:Hsel; [|done].
    exfalso.
    assert (u ∈ filter (λ r, users.email r = ri_email data) (tbl_users w))
      as Hin by (by apply list_elem_of_filter).
    rewrite Hsel in Hin. by apply elem_of_nil in Hin.
Qed.

(** The run of a registration that the store accepts. *)
Lemma register_run (w : World) (data : RegisterInput) (h : string) :
  registerSchema z_email (req_json (req w)) = Some data →
  fault w (trips w) = None →
  (∀ r, r ∈ tbl_users w → users.email r ≠ ri_email data) →
  hashPassword (next_bytes 16 w) (ri_password data) = Ok h →
  fault w (S (trips w)) = None →
  db_uuid w (S (trips w)) ∉ users.id <$> tbl_users w →
  let u := users.mk (db_uuid w (S (trips w))) (ri_email data) h
             (ri_firstName data) (ri_lastName data) (ri_phone data)
             customer true false None
             (db_now w (S (trips w))) (db_now w (S (trips w))) in
  fst (register z_email z_issues w) =
    Ok (Respond (mkResponse 201
          (<["message" := JStr "User registered successfully"]>
           (<["user" := JObj (userWithoutPassword u)]>
           (<["token" := JStr (generateToken (clock w (dates w)) u)]> ∅)))))
  ∧ tbl_users (snd (register z_email z_issues w)) = (tbl_users w ++ [u])%list
  ∧ tbl_apiKeys (snd (register z_email z_issues w)) = tbl_apiKeys w.
Proof.
  intros Hdata Hf Hfree Hhash Hf2 Hid.
  unfold register, select_users, hash_password, insert_users,
    generate_token.
  run. rewrite Hdata. cbn. rewrite Hf. cbn.
  rewrite (filter_off _ (tbl_users w)) by (intros r Hr; by apply Hfree).
  cbn.
  change (next_bytes 16 (with_trips _ (with_trace _ w)))
    with (next_bytes 16 w).
  rewrite Hhash. cbn. rewrite Hf2. cbn.
  rewrite decide_False; [done|].
  intros [?|(r & E & Hr)%list_elem_of_fmap]; [done|].
  by apply (Hfree r).
Qed.

(** X16: what is registered can log in. A registration that the store
    accepts stores the hash of the password, never the password as given,
    in an active row that has never logged in; and when the hasher verifies
    what it has hashed, a login with the same email and password on the
    store that results is answered 200 with that row. *)
Theorem register_then_login (w w2 : World) (data : RegisterInput)
    (h : string) :
  registerSchema z_email (req_json (req w)) = Some data →
  fault w (trips w) = None →
  (∀ r, r ∈ tbl_users w → users.email r ≠ ri_email data) →
  hashPassword (next_bytes 16 w) (ri_password data) = Ok h →
  fault w (S (trips w)) = None →
  db_uuid w (S (trips w)) ∉ users.id <$> tbl_users w →
  comparePassword (ri_password data) h = Ok true →
  tbl_users w2 = tbl_users (snd (register z_email z_issues w)) →
  loginSchema z_email (req_json (req w2))
    = Some (mkLoginInput (ri_email data) (ri_password data)) →
  fault w2 (trips w2) = None →
  fault w2 (S (trips w2)) = None →
  ∃ u r,
    last (tbl_users (snd (register z_email z_issues w))) = Some u
    ∧ users.email u = ri_email data
    ∧ users.password u = h
    ∧ users.isActive u = true
    ∧ users.emailVerified u = false
    ∧ users.lastLoginAt u = None
    ∧ fst (login z_email z_issues w2) = Ok (Respond r)
    ∧ status r = 200
    ∧ returns_user r u.
Proof.
  intros Hdata Hf Hfree Hhash Hf2 Hid Hcmp Htbl Hlogin Hg Hg2.
  destruct (register_run w data h Hdata Hf Hfree Hhash Hf2 Hid)
    as (_ & Husers & _).
  cbn zeta in Husers. rewrite Husers in Htbl |- *.
  set (u := users.mk _ _ h _ _ _ _ _ _ _ _ _) in *.
  assert (Hsel : filter (λ r, users.email r = ri_email data) (tbl_users w2)
                 = [u]).
  { rewrite Htbl, filter_app.
    rewrite (filter_off _ (tbl_users w)) by (intros r Hr; by apply Hfree).
    by rewrite filter_cons, decide_True. }
  destruct (login_success w2 (mkLoginInput (ri_email data) (ri_password data))
              u [] Hlogin Hg Hsel eq_refl Hcmp Hg2) as (Hout & _).
  eexists u, _. rewrite last_snoc, Hout.
  repeat split.
Qed.

(** A row with the administrator's email stops the script before it
    writes. *)
Lemma createAdminUser_exists (w : World) (u : users.row) :
  u ∈ tbl_users w → users.email u = adminEmail →
  tbl_users (snd (createAdminUser w)) = tbl_users w
  ∧ tbl_apiKeys (snd (createAdminUser w)) = tbl_apiKeys w
  ∧ drawn (snd (createAdminUser w)) = drawn w.
Proof.
  intros Hu He. unfold createAdminUser, select_users, console_log. run.
  destruct (fault w (trips w)); cbn; [done|].
  destruct (filter _ (tbl_users w)) as [|u0 rest] eqn:Hsel; [|done].
  exfalso.
  assert (u ∈ filter (λ r, users.email r = adminEmail) (tbl_users w))
    as Hin by (by apply list_elem_of_filter).
  rewrite Hsel in Hin. by apply elem_of_nil in Hin.
Qed.

(** X17: the script that creates the administrator decides by the email
    alone. When a row carries [admin@zupp.store], whatever its role and
    whether or not it is active, the tables are left as they are and no
    password is hashed; otherwise, with the store answering, one row is
    appended: an active, verified administrator whose password is the hash
    of the built-in one, and a second run then changes nothing. Whatever
    happens, the script ends without an exception. *)
Theorem createAdminUser_once (w : World) :
  (∀ u, u ∈ tbl_users w → users.email u = adminEmail →
     tbl_users (snd (createAdminUser w)) = tbl_users w
     ∧ tbl_apiKeys (snd (createAdminUser w)) = tbl_apiKeys w
     ∧ drawn (snd (createAdminUser w)) = drawn w)
  ∧ (∀ h,
       fault w (trips w) = None →
       (∀ r, r ∈ tbl_users w → users.email r ≠ adminEmail) →
       hashPassword (next_bytes 16 w) adminPassword = Ok h →
       fault w (S (trips w)) = None →
       db_uuid w (S (trips w)) ∉ users.id <$> tbl_users w →
       ∃ u,
         tbl_users (snd (createAdminUser w)) = (tbl_users w ++ [u])%list
         ∧ users.email u = adminEmail
         ∧ users.role u = admin
         ∧ users.isActive u = true
         ∧ users.emailVerified u = true
         ∧ users.password u = h
         ∧ tbl_users (snd (createAdminUser (snd (createAdminUser w))))
           = tbl_users (snd (createAdminUser w)))
  ∧ fst (createAdminUser w) = Ok ().
Proof.
  split; [apply createAdminUser_exists|]. split.
  - intros h Hf Hfree Hhash Hf2 Hid.
    assert (Hrun : ∃ u,
      tbl_users (snd (createAdminUser w)) = (tbl_users w ++ [u])%list
      ∧ users.email u = adminEmail ∧ users.role u = admin
      ∧ users.isActive u = true ∧ users.emailVerified u = true
      ∧ users.password u = h).
    { unfold createAdminUser, select_users, hash_password, insert_users,
        console_log.
      run. rewrite Hf. cbn.
      rewrite (filter_off _ (tbl_users w)) by (intros r Hr; by apply Hfree).
      cbn.
      change (next_bytes 16 (with_trips _ (with_trace _ w)))
        with (next_bytes 16 w).
      rewrite Hhash. cbn. rewrite Hf2. cbn.
      rewrite decide_False; [by eexists|].
      intros [?|(r & E & Hr)%list_elem_of_fmap]; [done|].
      by apply (Hfree r). }
    destruct Hrun as (u & Htbl & He & Hr & Ha & Hv & Hp).
    exists u. repeat split; try done.
    apply (createAdminUser_exists _ u); [|done].
    rewrite Htbl. apply elem_of_app. right. by apply list_elem_of_singleton.
  - unfold createAdminUser, select_users, hash_password, insert_users,
      console_log.
    run.
    destruct (fault w (trips w)); cbn; [done|].
    destruct (length _); cbn; [|done].
    destruct (hashPassword _ _); cbn; [|done].
    destruct (fault w (S (trips w))); cbn; [done|].
    by destruct (decide _).
Qed.

End LoginRegister.

Lemma login_failures_witness :
  fst (@login Stub.auth Stub.z_email Stub.z_issues Scenario.w_wrong_password) =
    Ok (Respond (mkResponse 401 (error_body "Invalid credentials")))
  ∧ fst (@login Stub.auth Stub.z_email Stub.z_issues Scenario.w_unknown_email) =
      Ok (Respond (mkResponse 401 (error_body "Invalid credentials")))
  ∧ fst (@login Stub.auth Stub.z_email Stub.z_issues
           Scenario.w_login_inactive) =
      Ok (Respond (mkResponse 401 (error_body "Account is deactivated")))
  ∧ tbl_users (snd (@login Stub.auth Stub.z_email Stub.z_issues
                      Scenario.w_login_inactive))
    = [Demo.alice_inactive].
Proof.
  destruct (login_failures (svc := Stub.auth) Stub.z_email Stub.z_issues
              Scenario.w_wrong_password (mkLoginInput "a@x.com" "letmein"))
    as (_ & Hwrong & _); [by vm_compute|reflexivity|].
  destruct (Hwrong Demo.alice []) as [E1 _]; [by vm_compute..|].
  destruct (login_failures (svc := Stub.auth) Stub.z_email Stub.z_issues
              Scenario.w_unknown_email
              (mkLoginInput "z@x.com" "pw12345678"))
    as (Hnone & _ & _); [by vm_compute|reflexivity|].
  destruct Hnone as [E2 _]; [by vm_compute|].
  destruct (login_failures (svc := Stub.auth) Stub.z_email Stub.z_issues
              Scenario.w_login_inactive
              (mkLoginInput "a@x.com" "pw12345678"))
    as (_ & _ & Hoff); [by vm_compute|reflexivity|].
  destruct (Hoff Demo.alice_inactive []) as [E3 T3]; [by vm_compute..|].
  exact (conj E1 (conj E2 (conj E3 T3))).
Defined.

Lemma login_success_witness :
  fst (@login Stub.auth Stub.z_email Stub.z_issues Demo.w_login) =
    Ok (Respond (mkResponse 200
          (<["message" := JStr "Login successful"]>
           (<["user" := JObj (userWithoutPassword Demo.alice)]>
           (<["token" := JStr (@generateToken Stub.auth 500 Demo.alice)]>
              ∅)))))
  ∧ userWithoutPassword Demo.alice !! "lastLoginAt"
    = Some (opt_date (users.lastLoginAt Demo.alice))
  ∧ tbl_users (snd (@login Stub.auth Stub.z_email Stub.z_issues Demo.w_login)) =
      (λ r, if decide (users.id r = "u1")
            then users.set_lastLoginAt (Some 500) r else r)
        <$> [Demo.alice]
  ∧ tbl_apiKeys (snd (@login Stub.auth Stub.z_email Stub.z_issues Demo.w_login))
    = [Demo.k1; Demo.k2].
Proof.
  apply (login_success (svc := Stub.auth) Stub.z_email Stub.z_issues Demo.w_login
           (mkLoginInput "a@x.com" "pw12345678") Demo.alice []);
    by vm_compute.
Defined.

Lemma register_then_login_witness :
  ∃ u r,
    last (tbl_users (snd (@register Stub.auth Stub.z_email Stub.z_issues
                            Demo.w_register))) = Some u
    ∧ users.email u = "b@x.com"
    ∧ users.password u = "$2$pw12345678"
    ∧ users.isActive u = true
    ∧ users.emailVerified u = false
    ∧ users.lastLoginAt u = None
    ∧ fst (@login Stub.auth Stub.z_email Stub.z_issues
             (Scenario.w_login_after_register
                (snd (@register Stub.auth Stub.z_email Stub.z_issues
                        Demo.w_register)))) = Ok (Respond r)
    ∧ status r = 200
    ∧ returns_user r u.
Proof.
  apply (register_then_login (svc := Stub.auth) Stub.z_email Stub.z_issues Demo.w_register
           (Scenario.w_login_after_register
              (snd (@register Stub.auth Stub.z_email Stub.z_issues Demo.w_register)))
           (mkRegisterInput "b@x.com" "pw12345678" None None None)
           "$2$pw12345678").
  - by vm_compute.
  - reflexivity.
  - intros r Hr. apply list_elem_of_singleton in Hr. by subst r.
  - reflexivity.
  - reflexivity.
  - apply (bool_decide_unpack _). by vm_compute.
  - by vm_compute.
  - reflexivity.
  - by vm_compute.
  - reflexivity.
  - reflexivity.
Defined.

(** A customer who registered with the administrator's email keeps the
    script from creating one. *)
Example createAdminUser_taken_email :
  let squatter := users.mk "u5" adminEmail "$2$pw" None None None
                    customer true false None 0 0 in
  let w := Demo.world [squatter] [] (mkRequest ∅ ∅ ∅ ∅) (mkCtx None None)
             500 Demo.no_fault in
  users.role <$> tbl_users (snd (@createAdminUser Stub.auth w)) = [customer].
Proof. by vm_compute. Qed.

(** ** The constraints of the schema as an invariant *)

Lemma users_step_refl (t : list users.row) : users_step t t.
Proof. by left. Qed.

Lemma keys_step_refl (us : list users.row) (t : list apiKeys.row) :
  keys_step us t t.
Proof. by left. Qed.

(** Steps keep the constraints. *)
Lemma steps_keep_db_ok (w w' : World) :
  db_ok w →
  users_step (tbl_users w) (tbl_users w') →
  keys_step (tbl_users w) (tbl_apiKeys w) (tbl_apiKeys w') →
  db_ok w'.
Proof.
  intros (Huid & Hmail & Hkid & Hkey & Hfk) Hus Hks.
  assert (Hgrow : ∀ i, i ∈ users.id <$> tbl_users w →
                       i ∈ users.id <$> tbl_users w').
  { destruct Hus as [[-> _]|(u & -> & _)]; [done|].
    intros i Hi. rewrite fmap_app. apply elem_of_app. by left. }
  unfold db_ok, ids_unique, keys_unique in *.
  split; [|split]; [| |].
  - destruct Hus as [[-> _]|(u & -> & Hu & _)]; [done|].
    rewrite fmap_app. apply NoDup_app. split; [done|]. split.
    + intros x Hx Hx'. apply list_elem_of_singleton in Hx'. by subst x.
    + apply NoDup_singleton.
  - destruct Hus as [[_ ->]|(u & -> & _ & Hu)]; [done|].
    rewrite fmap_app. apply NoDup_app. split; [done|]. split.
    + intros x Hx Hx'. apply list_elem_of_singleton in Hx'. by subst x.
    + apply NoDup_singleton.
  - destruct Hks as [->|[(Hi & Hc & Hu)|[(k & -> & Hi & Hk & Hc)|(Q & HQ & ->)]]].
    + split; [done|]. split; [done|]. intros k Hk. by apply Hgrow, Hfk.
    + split; [by rewrite Hi|]. split; [done|].
      intros k Hk. apply Hgrow.
      assert (apiKeys.createdBy k ∈ apiKeys.createdBy <$> tbl_apiKeys w')
        as Hin by (by apply list_elem_of_fmap_2).
      rewrite Hc in Hin. apply list_elem_of_fmap in Hin as (k0 & -> & Hk0).
      by apply Hfk.
    + split; [|split].
      * rewrite fmap_app. apply NoDup_app. split; [done|]. split.
        -- intros x Hx Hx'. apply list_elem_of_singleton in Hx'. by subst x.
        -- apply NoDup_singleton.
      * rewrite fmap_app. apply NoDup_app. split; [done|]. split.
        -- intros x Hx Hx'. apply list_elem_of_singleton in Hx'. by subst x.
        -- apply NoDup_singleton.
      * intros k0 [Hk0| ->%list_elem_of_singleton]%elem_of_app.
        -- by apply Hgrow, Hfk.
        -- by apply Hgrow.
    + split; [|split].
      * eapply sublist_NoDup; [exact Hkid|].
        apply fmap_sublist, sublist_filter.
      * eapply sublist_NoDup; [exact Hkey|].
        apply fmap_sublist, sublist_filter.
      * intros k [_ Hk]%list_elem_of_filter. by apply Hgrow, Hfk.
Qed.

Lemma fmap_if_same {A B} (g : A → B) (f : A → A) (P : A → Prop)
    `{!∀ x, Decision (P x)} (l : list A) :
  (∀ x, g (f x) = g x) →
  g <$> ((λ x, if decide (P x) then f x else x) <$> l) = g <$> l.
Proof.
  intros Hg. rewrite <- list_fmap_compose. apply list_fmap_ext.
  intros i x _. cbn. by case_decide.
Qed.

(** A stage in front of a handler: the run ends with the stage or goes on
    with the handler on the world the stage left. *)
Lemma route_pair (a h : M outcome) (w : World) :
  snd (route [a; h] w) = snd (a w)
  ∨ snd (route [a; h] w) = snd (h (snd (a w))).
Proof.
  unfold route. run. destruct (a w) as [[[r|]|e] w1]; cbn; auto.
Qed.

Section Lawful.
Context `{svc : AuthService}.
Variable z_email : string → bool.
Variable z_issues : string → jsobj → jsval.
Variable z_datetime : string → bool.
Variable Date_parse : string → Z.

Lemma authMiddleware_lawful : lawful authMiddleware.
Proof.
  intros w. destruct (authMiddleware_frame w) as (_ & -> & -> & _).
  split; [apply users_step_refl|apply keys_step_refl].
Qed.

Lemma apiKeyMiddleware_lawful : lawful apiKeyMiddleware.
Proof.
  intros w.
  unfold apiKeyMiddleware, presented_apiKey, select_apiKeys, update_apiKeys.
  run.
  destruct (truthy _); cbn; [|by split; left].
  destruct (fault w (trips w)); cbn; [by split; left|].
  destruct (filter _ (tbl_apiKeys w)) as [|k rest]; cbn; [by split; left|].
  destruct (apiKeys.expiresAt k) as [e|]; cbn.
  - destruct (e <? _); cbn; [by split; left|].
    destruct (fault w (S (trips w))); cbn; [by split; left|].
    destruct (decide _) as [Hu|]; cbn; [|by split; left].
    split; [by left|]. right. left. by rewrite !fmap_if_same.
  - destruct (fault w (S (trips w))); cbn; [by split; left|].
    destruct (decide _) as [Hu|]; cbn; [|by split; left].
    split; [by left|]. right. left. by rewrite !fmap_if_same.
Qed.

Lemma regenerate_lawful : lawful regenerate.
Proof.
  intros w. unfold regenerate, generateApiKey, update_apiKeys. run.
  destruct (fault w (trips w)); cbn; [by split; left|].
  destruct (decide _) as [Hu|]; cbn; [|by split; left].
  destruct (_ <$> filter _ _); cbn;
    (split; [by left|]; right; left; by rewrite !fmap_if_same).
Qed.

Lemma update_apiKey_lawful :
  lawful (update_apiKey z_issues z_datetime Date_parse).
Proof.
  intros w. unfold update_apiKey, validation_failed, update_apiKeys. run.
  destruct (updateApiKeySchema _ _); cbn; [|by split; left].
  destruct (fault w (trips w)); cbn; [by split; left|].
  destruct (decide _) as [Hu|]; cbn; [|by split; left].
  destruct (_ <$> filter _ _); cbn;
    (split; [by left|]; right; left; by rewrite !fmap_if_same).
Qed.

Lemma delete_apiKey_lawful : lawful delete_apiKey.
Proof.
  intros w. unfold delete_apiKey, delete_apiKeys, round_trip_unlogged. run.
  destruct (fault w (trips w)); cbn; [by split; left|].
  destruct (filter (λ k, apiKeys.id k = _) _); cbn;
    (split; [by left|]; right; right; right; by eexists _, _).
Qed.

Lemma get_apiKey_lawful : lawful get_apiKey.
Proof.
  intros w. unfold get_apiKey, select_apiKeys. run.
  destruct (fault w (trips w)); cbn; [by split; left|].
  by destruct (filter _ _); cbn; split; left.
Qed.

Lemma create_apiKey_lawful :
  lawful (create_apiKey z_issues z_datetime Date_parse).
Proof.
  intros w.
  unfold create_apiKey, validation_failed, generateApiKey, insert_apiKeys,
    round_trip_unlogged.
  run.
  destruct (createApiKeySchema _ _); cbn; [|by split; left].
  destruct (ctx_user (ctx w)); cbn; [|by split; left].
  destruct (fault w (trips w)); cbn; [by split; left|].
  destruct (decide _) as [|Hfree]; cbn; [by split; left|].
  destruct (decide _) as [Hfk|]; cbn; [|by split; left].
  split; [by left|]. right. right. left. eexists. split; [done|].
  cbn. repeat split; try done; intros ?; apply Hfree; auto.
Qed.

Lemma register_lawful : lawful (register z_email z_issues).
Proof.
  intros w.
  unfold register, validation_failed, select_users, hash_password,
    insert_users, generate_token.
  run.
  destruct (registerSchema _ _); cbn; [|by split; left].
  destruct (fault w (trips w)); cbn; [by split; left|].
  destruct (length _); cbn; [|by split; left].
  destruct (hashPassword _ _); cbn; [|by split; left].
  destruct (fault w (S (trips w))); cbn; [by split; left|].
  destruct (decide _) as [|Hfree]; cbn; [by split; left|].
  split; [|by left]. right. eexists. split; [done|].
  cbn. split; intros ?; apply Hfree; auto.
Qed.

Lemma login_lawful : lawful (login z_email z_issues).
Proof.
  intros w.
  unfold login, validation_failed, select_users, update_users,
    generate_token.
  run.
  destruct (loginSchema _ _); cbn; [|by split; left].
  destruct (fault w (trips w)); cbn; [by split; left|].
  destruct (filter _ (tbl_users w)) as [|u rest]; cbn; [by split; left|].
  destruct (users.isActive u); cbn; [|by split; left].
  destruct (comparePassword _ _) as [[|]|]; cbn;
    [|by split; left|by split; left].
  destruct (fault w (S (trips w))); cbn; [by split; left|].
  split; [|by left]. left. by rewrite !fmap_if_same.
Qed.

Lemma me_handler_lawful : lawful me_handler.
Proof.
  intros w. unfold me_handler, select_users. run.
  destruct (ctx_user (ctx w)); cbn; [|by split; left].
  destruct (fault w (trips w)); cbn; [by split; left|].
  by destruct (filter _ _); cbn; split; left.
Qed.

Lemma refresh_handler_lawful : lawful refresh_handler.
Proof.
  intros w. unfold refresh_handler, select_users, generate_token. run.
  destruct (ctx_user (ctx w)); cbn; [|by split; left].
  destruct (fault w (trips w)); cbn; [by split; left|].
  destruct (filter _ _) as [|u rest]; cbn; [by split; left|].
  by destruct (users.isActive u); cbn; split; left.
Qed.

Lemma createAdminUser_lawful : lawful createAdminUser.
Proof.
  intros w.
  unfold createAdminUser, select_users, hash_password, insert_users,
    console_log.
  run.
  destruct (fault w (trips w)); cbn; [by split; left|].
  destruct (length _); cbn; [|by split; left].
  destruct (hashPassword _ _); cbn; [|by split; left].
  destruct (fault w (S (trips w))); cbn; [by split; left|].
  destruct (decide _) as [|Hfree]; cbn; [by split; left|].
  split; [|by left]. right. eexists. split; [done|].
  cbn. split; intros ?; apply Hfree; auto.
Qed.

Lemma requireRole_lawful (roles : list string) : lawful (requireRole roles).
Proof.
  intros w. unfold requireRole. run.
  destruct (ctx_user (ctx w)); cbn; [|by split; left].
  by destruct (negb _); cbn; split; left.
Qed.

Lemma lawful_keeps {A} (h : M A) :
  lawful h → ∀ w, db_ok w → db_ok (snd (h w)).
Proof. intros Hh w Hok. destruct (Hh w). by apply (steps_keep_db_ok w). Qed.

(** A route keeps what each of its stages keeps. *)
Lemma route_keeps (stages : list (M outcome)) :
  Forall (λ h : M outcome, ∀ w, db_ok w → db_ok (snd (h w))) stages →
  ∀ w, db_ok w → db_ok (snd (route stages w)).
Proof.
  induction 1 as [|h rest Hh Hrest IH]; intros w Hok; [done|].
  destruct rest as [|h' rest]; [by apply Hh|].
  change (route (h :: h' :: rest))
    with (o ← h; match o with
                 | Respond r => mret (Respond r)
                 | Passed => route (h' :: rest)
                 end).
  specialize (Hh w Hok). run.
  destruct (h w) as [[[r|]|e] w1]; cbn in *; auto.
Qed.

Lemma staff_route_keeps (h : M outcome) :
  (∀ w, db_ok w → db_ok (snd (h w))) →
  ∀ w, db_ok w → db_ok (snd (staff_route h w)).
Proof.
  intros Hh. apply route_keeps.
  apply Forall_cons_2; [apply lawful_keeps, authMiddleware_lawful|].
  apply Forall_cons_2; [apply lawful_keeps, requireRole_lawful|].
  by apply Forall_cons_2.
Qed.

Lemma public_route_keeps (h : M outcome) :
  (∀ w, db_ok w → db_ok (snd (h w))) →
  ∀ w, db_ok w → db_ok (snd (public_route h w)).
Proof.
  intros Hh. apply route_keeps.
  apply Forall_cons_2; [apply lawful_keeps, apiKeyMiddleware_lawful|].
  by apply Forall_cons_2.
Qed.

Lemma serve_keeps (e : endpoint) (w : World) :
  db_ok w → db_ok (snd (serve z_email z_issues z_datetime Date_parse e w)).
Proof.
  destruct e; cbn [serve].
  - apply lawful_keeps, register_lawful.
  - apply lawful_keeps, login_lawful.
  - apply route_keeps.
    apply Forall_cons_2; [apply lawful_keeps, authMiddleware_lawful|].
    apply Forall_cons_2; [apply lawful_keeps, me_handler_lawful|done].
  - apply route_keeps.
    apply Forall_cons_2; [apply lawful_keeps, authMiddleware_lawful|].
    apply Forall_cons_2; [apply lawful_keeps, refresh_handler_lawful|done].
  - apply staff_route_keeps, lawful_keeps, get_apiKey_lawful.
  - apply staff_route_keeps, lawful_keeps, create_apiKey_lawful.
  - apply staff_route_keeps, lawful_keeps, update_apiKey_lawful.
  - apply staff_route_keeps, lawful_keeps, delete_apiKey_lawful.
  - apply staff_route_keeps, lawful_keeps, regenerate_lawful.
Qed.

(** X18. Served one after the other from a store that meets the
    constraints of the schema (primary keys and [unique()] columns without
    duplicates, every key created by a stored user), no list of requests
    to the register, login, me, refresh and API-key routes leaves a store
    that breaks them, whatever the requests carry and whenever the store
    fails; nor does the script that creates the administrator. *)
Theorem served_requests_keep_constraints
    (reqs : list (endpoint * Request)) (w : World) :
  db_ok w →
  db_ok (serve_all z_email z_issues z_datetime Date_parse reqs w)
  ∧ db_ok (snd (createAdminUser
             (serve_all z_email z_issues z_datetime Date_parse reqs w))).
Proof.
  intros Hok.
  assert (db_ok (serve_all z_email z_issues z_datetime Date_parse reqs w))
    as Hend.
  { revert w Hok. induction reqs as [|[e r] rest IH]; intros w Hok; [done|].
    cbn [serve_all]. apply IH. unfold handle. by apply serve_keeps. }
  split; [done|]. by apply (lawful_keeps _ createAdminUser_lawful).
Qed.

(** X19. The gates do not break the constraints of the schema in front of
    any handler that keeps them: the two staff gates write nothing, and
    the write of [lastUsedAt] by the key gate leaves ids, key values and
    creators as they were. *)
Theorem gates_keep_constraints (h : M outcome) (w : World) :
  (∀ w0, db_ok w0 → db_ok (snd (h w0))) →
  db_ok w →
  db_ok (snd (staff_route h w)) ∧ db_ok (snd (public_route h w)).
Proof.
  intros Hh Hok. split.
  - by apply staff_route_keeps.
  - by apply public_route_keeps.
Qed.

End Lawful.

Lemma served_requests_keep_constraints_witness :
  db_ok (@serve_all Stub.auth Stub.z_email Stub.z_issues Scenario.z_datetime
           Scenario.Date_parse Scenario.session Demo.w_session)
  ∧ db_ok (snd (@createAdminUser Stub.auth
             (@serve_all Stub.auth Stub.z_email Stub.z_issues Scenario.z_datetime
                Scenario.Date_parse Scenario.session Demo.w_session))).
Proof.
  apply (served_requests_keep_constraints (svc := Stub.auth) Stub.z_email Stub.z_issues
           Scenario.z_datetime Scenario.Date_parse Scenario.session
           Demo.w_session).
  unfold db_ok, ids_unique, keys_unique.
  repeat split; try (apply (bool_decide_unpack _); by vm_compute).
  apply (proj1 (Forall_forall
                  (λ k, apiKeys.createdBy k ∈ users.id <$> [Demo.alice])
                  [Demo.k1; Demo.k2])).
  apply (bool_decide_unpack _). by vm_compute.
Defined.

(** The store after the three requests of the session: the customer is
    registered and the key [k1] is gone. *)
Example session_outcome :
  let w := @serve_all Stub.auth Stub.z_email Stub.z_issues Scenario.z_datetime
             Scenario.Date_parse Scenario.session Demo.w_session in
  users.email <$> tbl_users w = ["a@x.com"; "b@x.com"]
  ∧ apiKeys.id <$> tbl_apiKeys w = ["k2"].
Proof. by vm_compute. Qed.

Lemma gates_keep_constraints_witness :
  db_ok (snd (@staff_route Stub.auth delete_apiKey Scenario.w_both_gates))
  ∧ db_ok (snd (public_route delete_apiKey Scenario.w_both_gates)).
Proof.
  apply (gates_keep_constraints (svc := Stub.auth) delete_apiKey
           Scenario.w_both_gates).
  - apply lawful_keeps, delete_apiKey_lawful.
  - unfold db_ok, ids_unique, keys_unique.
    repeat split; try (apply (bool_decide_unpack _); by vm_compute).
    apply (proj1 (Forall_forall
                    (λ k, apiKeys.createdBy k ∈ users.id <$> [Demo.alice])
                    [Demo.k1; Demo.k2])).
    apply (bool_decide_unpack _). by vm_compute.
Defined.

(** In that world the request passes the gates and the handler behind
    them runs: behind the staff gates the key [k1] is deleted, and behind
    the key gate it is deleted after the use of [k2] has been written. *)
Example gates_pass_and_handler_runs :
  fst (@staff_route Stub.auth delete_apiKey Scenario.w_both_gates)
  = Ok (Respond (mkResponse 200
          {[ "message" := JStr "API key deleted successfully" ]}))
  ∧ tbl_apiKeys (snd (@staff_route Stub.auth delete_apiKey
                        Scenario.w_both_gates))
    = [Demo.k2]
  ∧ fst (public_route delete_apiKey Scenario.w_both_gates)
    = Ok (Respond (mkResponse 200
            {[ "message" := JStr "API key deleted successfully" ]}))
  ∧ tbl_apiKeys (snd (public_route delete_apiKey Scenario.w_both_gates))
    = [apiKeys.set_lastUsedAt 500 Demo.k2].
Proof. by vm_compute. Qed.
